(** * Media converter: the conversion worker and the shell handlers

    A shallow embedding of [main.py]: the worker [ConverterThread.run]
    (decode, re-encode, mux, progress and terminal signals) and the two
    shell handlers that feed it, [MediaConverterApp.dropEvent] and
    [MediaConverterApp.start_conversion]; then the window with all its
    handlers and slots ([select_file], [update_progress],
    [conversion_complete]) and the script that shows it.

    The libraries the program calls (OpenCV, MoviePy, the file system) are
    modelled by a [World]: a record of what each call returns or raises for
    the file at hand.  The program itself is a function of that record. *)

From Stdlib Require Import ZArith Ascii String List Bool Lia SpecFloat.
From Stdlib Require Import DecimalString.
From stdpp Require Import base tactics option list strings gmap.

Local Open Scope Z_scope.

(** ** Python strings *)

(** Paths and labels are Python [str] values.  They are modelled as Rocq
    strings of 8-bit characters, on which the [str] methods below act as
    Python's do on ASCII text. *)
Module PyStr.

Definition code (c : ascii) : Z := Z.of_N (N_of_ascii c).

(** [str.lower], one character at a time. *)
Definition lower_char (c : ascii) : ascii :=
  if (65 <=? code c) && (code c <=? 90)
  then ascii_of_N (N_of_ascii c + 32) else c.

Fixpoint lower (s : string) : string :=
  match s with
  | EmptyString => EmptyString
  | String c s' => String (lower_char c) (lower s')
  end.

(** [str.isspace] on one character: tab, LF, VT, FF, CR, the four
    separators 0x1c-0x1f and the space. *)
Definition isspace (c : ascii) : bool :=
  ((9 <=? code c) && (code c <=? 13)) ||
  ((28 <=? code c) && (code c <=? 32)).

Definition len (s : string) : Z := Z.of_nat (String.length s).

(** Slices [s[:n]] and [s[n:]] for a natural index. *)
Fixpoint take (n : nat) (s : string) : string :=
  match n, s with
  | O, _ => EmptyString
  | S _, EmptyString => EmptyString
  | S n', String c s' => String c (take n' s')
  end.

Fixpoint drop (n : nat) (s : string) : string :=
  match n, s with
  | O, _ => s
  | S _, EmptyString => EmptyString
  | S n', String _ s' => drop n' s'
  end.

(** Python's slice bounds: a negative bound counts from the end, and
    the result is clipped to the string. *)
Definition clip (s : string) (i : Z) : nat :=
  Z.to_nat (Z.min (len s) (if i <? 0 then Z.max 0 (len s + i) else i)).

Definition slice_to (s : string) (i : Z) : string := take (clip s i) s.
Definition slice_from (s : string) (i : Z) : string := drop (clip s i) s.
Definition slice (s : string) (i j : Z) : string :=
  take (clip s j - clip s i) (drop (clip s i) s).

(** [s.endswith(suffix)]. *)
Definition endswith (s suffix : string) : bool :=
  (String.length suffix <=? String.length s)%nat &&
  String.eqb (drop (String.length s - String.length suffix) s) suffix.

(** [s.rfind(c)] for a one-character needle: the highest index holding
    [c], or -1. *)
Fixpoint rfind_go (s : string) (c : ascii) (i last : Z) : Z :=
  match s with
  | EmptyString => last
  | String a s' => rfind_go s' c (i + 1) (if Ascii.eqb a c then i else last)
  end.

Definition rfind (s : string) (c : ascii) : Z := rfind_go s c 0 (-1).

(** [s.split()] with no argument: the maximal runs of non-space
    characters, in order. *)
Fixpoint split_go (cur : option string) (s : string) : list string :=
  match s with
  | EmptyString =>
      match cur with Some w => [String.rev w] | None => [] end
  | String a s' =>
      if isspace a
      then match cur with
           | Some w => String.rev w :: split_go None s'
           | None => split_go None s'
           end
      else split_go (Some (String a (default EmptyString cur))) s'
  end.

Definition split (s : string) : list string := split_go None s.

End PyStr.

(** ** [os.path.splitext] *)

(** [genericpath._splitext(p, sep, altsep, extsep)], which both
    [posixpath.splitext] and [ntpath.splitext] call. *)
Module OsPath.
Import PyStr.

Record flavour := { sep : ascii; altsep : option ascii }.

Definition posixpath : flavour := {| sep := "/"; altsep := None |}.
Definition ntpath : flavour := {| sep := "\"; altsep := Some "/"%char |}.

Definition extsep : ascii := ".".

(** The loop that skips the leading dots of the file name: [fuel] is
    [dotIndex - filenameIndex], the number of iterations left. *)
Fixpoint skip_dots (p : string) (dotIndex filenameIndex : Z) (fuel : nat)
  : string * string :=
  match fuel with
  | O => (p, EmptyString)
  | S fuel' =>
      if negb (String.eqb (slice p filenameIndex (filenameIndex + 1))
                          (String extsep EmptyString))
      then (slice_to p dotIndex, slice_from p dotIndex)
      else skip_dots p dotIndex (filenameIndex + 1) fuel'
  end.

Definition splitext (fl : flavour) (p : string) : string * string :=
  let sepIndex := rfind p (sep fl) in
  let sepIndex :=
    match altsep fl with
    | Some a => Z.max sepIndex (rfind p a)
    | None => sepIndex
    end in
  let dotIndex := rfind p extsep in
  if sepIndex <? dotIndex
  then skip_dots p dotIndex (sepIndex + 1)
                 (Z.to_nat (dotIndex - (sepIndex + 1)))
  else (p, EmptyString).

End OsPath.

(** ** Python exceptions and floats *)

(** An exception is its class name and [str(e)].  Every exception below
    derives from [Exception]. *)
Record exn := Exn { exn_class : string; exn_str : string }.

Inductive res (A : Type) :=
| Ok (a : A)
| Raise (e : exn).
Arguments Ok {A} a.
Arguments Raise {A} e.

(** Python's [float] is IEEE 754 binary64, rounded to nearest, ties to
    even.  A finite value is [m * 2^e]; the sign of a zero is not kept,
    because [int()] forgets it. *)
Module PyFloat.

Inductive float :=
| Finite (m e : Z)
| Infinity (negative : bool)
| NaN.

Definition prec : Z := 53.
Definition emin : Z := -1074.
Definition emax : Z := 1024.

(** The fraction [a / (b * 2^e)] as numerator and denominator. *)
Definition scale (a b e : Z) : Z * Z :=
  if 0 <=? e then (a, b * 2 ^ e) else (a * 2 ^ (- e), b).

(** [floor (log2 (a / b))] for positive [a] and [b]. *)
Definition ilog2 (a b : Z) : Z :=
  let d := Z.log2 a - Z.log2 b in
  let '(n, m) := scale a b d in
  if m <=? n then d else d - 1.

(** Nearest integer to [n / d], ties to even, for [0 <= n] and [0 < d]. *)
Definition nearest_even (n d : Z) : Z :=
  let q := n / d in
  let r := n mod d in
  if 2 * r <? d then q
  else if d <? 2 * r then q + 1
  else if Z.even q then q else q + 1.

(** The binary64 value nearest to [a / b], for positive [a] and [b]:
    53 significant bits, or fewer below [2^-1022]; infinite from
    [2^1024] on. *)
Definition round_pos (a b : Z) : float :=
  let e := Z.max (ilog2 a b - (prec - 1)) emin in
  let '(n, d) := scale a b e in
  let m := nearest_even n d in
  if (emax - prec <? e) || ((e =? emax - prec) && (m =? 2 ^ prec))
  then Infinity false
  else Finite m e.

Definition neg (x : float) : float :=
  match x with
  | Finite m e => Finite (- m) e
  | Infinity s => Infinity (negb s)
  | NaN => NaN
  end.

(** The binary64 value nearest to [a / b], for [b <> 0]. *)
Definition round (a b : Z) : float :=
  if a =? 0 then Finite 0 0
  else
    let x := round_pos (Z.abs a) (Z.abs b) in
    if (Z.sgn a * Z.sgn b) <? 0 then neg x else x.

(** [float(n)] for an [int] that a double holds exactly. *)
Definition of_int (n : Z) : float := Finite n 0.

(** [a / b] on two [int]s (CPython's [long_true_divide]): the correctly
    rounded quotient. *)
Definition truediv (a b : Z) : res float :=
  if b =? 0 then Raise (Exn "ZeroDivisionError" "division by zero")
  else
    match round a b with
    | Finite m e => Ok (Finite m e)
    | _ => Raise (Exn "OverflowError"
                      "integer division result too large for a float")
    end.

Definition is_zero (x : float) : bool :=
  match x with Finite m _ => m =? 0 | _ => false end.

Definition negative (x : float) : bool :=
  match x with Finite m _ => m <? 0 | Infinity s => s | NaN => false end.

(** [x * y] on two floats; an overflow gives an infinity, silently. *)
Definition mul (x y : float) : float :=
  match x, y with
  | NaN, _ | _, NaN => NaN
  | Finite m1 e1, Finite m2 e2 =>
      let '(n, d) := scale (m1 * m2) 1 (- (e1 + e2)) in round n d
  | Infinity s, z | z, Infinity s =>
      if is_zero z then NaN else Infinity (xorb s (negative z))
  end.

(** [int(x)]: truncation toward zero. *)
Definition to_int (x : float) : res Z :=
  match x with
  | Finite m e => Ok (if 0 <=? e then m * 2 ^ e else Z.quot m (2 ^ (- e)))
  | Infinity _ =>
      Raise (Exn "OverflowError" "cannot convert float infinity to integer")
  | NaN => Raise (Exn "ValueError" "cannot convert float NaN to integer")
  end.

End PyFloat.

(** [int((frame_count / total_frames) * 100)], line 74. *)
Definition progress_of (frame_count total_frames : Z) : res Z :=
  match PyFloat.truediv frame_count total_frames with
  | Ok x => PyFloat.to_int (PyFloat.mul x (PyFloat.of_int 100))
  | Raise e => Raise e
  end.

(** ** The libraries, as the worker sees them *)

(** A decoded picture: rows of pixels, three 8-bit channels each, in the
    order the array holds them. *)
Record pixel := Px { ch0 : Z; ch1 : Z; ch2 : Z }.
Definition frame := list (list pixel).

(** [cv2.cvtColor(frame, cv2.COLOR_BGR2RGB)]: the first and the third
    channel change places. *)
Definition BGR2RGB (px : pixel) : pixel :=
  {| ch0 := ch2 px; ch1 := ch1 px; ch2 := ch0 px |}.
Definition cvtColor_BGR2RGB (f : frame) : frame := map (map BGR2RGB) f.

(** What [mpy.AudioFileClip] holds. *)
Record AudioClip := { audio_source : string; audio_samples : list Z }.

(** A media file on disk: its pictures and its sound track, if any. *)
Record media := { video : list frame; audio : option AudioClip }.

(** An opened [cv2.VideoCapture]: the four properties [run] reads (the
    last three already through [int]) and the frames [read] delivers
    before it answers [False]. *)
Record Capture := {
  CAP_PROP_FPS : PyFloat.float;
  CAP_PROP_FRAME_WIDTH : Z;
  CAP_PROP_FRAME_HEIGHT : Z;
  CAP_PROP_FRAME_COUNT : Z;
  cap_frames : list frame
}.

(** The library calls of [run] that touch the outside, with their
    arguments; [i] counts the frames read so far. *)
Inductive call :=
| cv2_VideoCapture (path : string)
| mpy_AudioFileClip (path : string)
| cv2_VideoWriter (path : string) (fps : PyFloat.float) (width height : Z)
| cap_read (i : Z)
| cv2_cvtColor (i : Z) (f : frame)
| out_write (i : Z) (f : frame)
| cap_release
| out_release
| mpy_VideoFileClip (path : string)
| set_audio
| write_videofile (path : string) (clip : media) (audio_codec : option string)
| video_clip_close
| audio_clip_close
| os_remove (path : string).

(** The two Qt signals of [ConverterThread]. *)
Inductive signal :=
| progress_updated (percent : Z)
| conversion_finished (success : bool) (message : string).

(** One job's surroundings.
    - [decode path]: what [cv2.VideoCapture] makes of an existing file;
      [None] when [isOpened()] is false.  The constructor and [cap.get]
      return and do not raise.
    - [extract_audio path]: the clip [mpy.AudioFileClip] builds, or the
      exception it raises.
    - [writer_opens path]: whether [cv2.VideoWriter] can create the file;
      when it cannot, the writer is left unopened and drops what it is
      given.
    - [fault c]: the exception call [c] raises instead of returning, if
      any.
    - [mux_leftover]: what a failing [write_videofile] leaves at the output
      path, if anything. *)
Record World := {
  decode : string -> option Capture;
  extract_audio : string -> res AudioClip;
  writer_opens : string -> bool;
  fault : call -> option exn;
  mux_leftover : option media
}.

(** What a run changes: the files on disk, the signals emitted and the
    library calls made, oldest first. *)
Record State := {
  disk : gmap string media;
  signals : list signal;
  calls : list call
}.

(** ** A state and exception monad for the worker *)

Definition M (A : Type) : Type := State -> res A * State.

Definition ret {A} (a : A) : M A := fun s => (Ok a, s).

Definition bind {A B} (m : M A) (k : A -> M B) : M B :=
  fun s => match m s with
           | (Ok a, s') => k a s'
           | (Raise e, s') => (Raise e, s')
           end.

Notation "x <- m ;; k" := (bind m (fun x => k))
  (at level 100, m at next level, right associativity).
Notation "m ;;; k" := (bind m (fun _ => k))
  (at level 100, right associativity).

Definition raise {A} (e : exn) : M A := fun s => (Raise e, s).

Definition lift {A} (r : res A) : M A := fun s => (r, s).

(** [try: body except Exception as e: handler(e)]. *)
Definition try_except {A} (body : M A) (handler : exn -> M A) : M A :=
  fun s => match body s with
           | (Ok a, s') => (Ok a, s')
           | (Raise e, s') => handler e s'
           end.

Definition emit (sg : signal) : M unit :=
  fun s => (Ok tt, {| disk := disk s; signals := signals s ++ [sg];
                      calls := calls s |}).

Definition get_disk : M (gmap string media) := fun s => (Ok (disk s), s).

Definition set_disk (d : gmap string media) : M unit :=
  fun s => (Ok tt, {| disk := d; signals := signals s; calls := calls s |}).

Definition log (c : call) : M unit :=
  fun s => (Ok tt, {| disk := disk s; signals := signals s;
                      calls := calls s ++ [c] |}).

(** ** [ConverterThread] *)

Module ConverterThread.
Section Worker.

Variable w : World.
Variable os_path : OsPath.flavour.

(** A library call: it is made, and raises when the world says so. *)
Definition invoke (c : call) : M unit :=
  log c ;;;
  match fault w c with
  | Some e => raise e
  | None => ret tt
  end.

(** [cv2.VideoCapture(path)]; the result is [None] when [isOpened()]
    is false, which is the case for a path that names no file. *)
Definition VideoCapture (path : string) : M (option Capture) :=
  log (cv2_VideoCapture path) ;;;
  d <- get_disk ;;
  ret (match d !! path with
       | Some _ => decode w path
       | None => None
       end).

Definition AudioFileClip (path : string) : M AudioClip :=
  log (mpy_AudioFileClip path) ;;;
  lift (extract_audio w path).

(** [cv2.VideoWriter(path, fourcc, fps, (width, height))]: an opened
    writer starts the file afresh. *)
Record Writer := { out_path : string; out_opened : bool }.

Definition VideoWriter (path : string) (fps : PyFloat.float)
    (width height : Z) : M Writer :=
  invoke (cv2_VideoWriter path fps width height) ;;;
  if writer_opens w path
  then d <- get_disk ;;
       set_disk (<[path := {| video := []; audio := None |}]> d) ;;;
       ret {| out_path := path; out_opened := true |}
  else ret {| out_path := path; out_opened := false |}.

(** [out.write(frame)]. *)
Definition write (out : Writer) (i : Z) (f : frame) : M unit :=
  invoke (out_write i f) ;;;
  if out_opened out
  then d <- get_disk ;;
       set_disk (alter (fun m => {| video := video m ++ [f];
                                    audio := audio m |}) (out_path out) d)
  else ret tt.

(** [mpy.VideoFileClip(path)]. *)
Definition clip_not_found (path : string) : exn :=
  Exn "OSError"
      ("MoviePy error: the file " +:+ path +:+ " could not be found!").

Definition VideoFileClip (path : string) : M media :=
  invoke (mpy_VideoFileClip path) ;;;
  d <- get_disk ;;
  match d !! path with
  | Some m => ret m
  | None => raise (clip_not_found path)
  end.

(** [final_clip.write_videofile(path, ...)]. *)
Definition write_videofile_to (path : string) (clip : media)
    (audio_codec : option string) : M unit :=
  log (write_videofile path clip audio_codec) ;;;
  d <- get_disk ;;
  match fault w (write_videofile path clip audio_codec) with
  | Some e =>
      set_disk (match mux_leftover w with
                | Some m => <[path := m]> d
                | None => d
                end) ;;;
      raise e
  | None => set_disk (<[path := clip]> d)
  end.

(** [os.remove(path)]. *)
Definition no_such_file (path : string) : exn :=
  Exn "FileNotFoundError"
      ("[Errno 2] No such file or directory: '" +:+ path +:+ "'").

Definition remove (path : string) : M unit :=
  invoke (os_remove path) ;;;
  d <- get_disk ;;
  match d !! path with
  | Some _ => set_disk (delete path d)
  | None => raise (no_such_file path)
  end.

(** Lines 65-75: the frames still to come are [pending]; [cap.read()]
    answers [False] when none is left. *)
Fixpoint frame_loop (out : Writer) (total_frames : Z)
    (pending : list frame) (frame_count : Z) : M unit :=
  match pending with
  | [] => invoke (cap_read frame_count)
  | frame :: pending' =>
      invoke (cap_read frame_count) ;;;
      invoke (cv2_cvtColor frame_count frame) ;;;
      let frame := cvtColor_BGR2RGB frame in
      write out frame_count frame ;;;
      let frame_count := frame_count + 1 in
      progress <- lift (progress_of frame_count total_frames) ;;
      emit (progress_updated (Z.min progress 95)) ;;;
      frame_loop out total_frames pending' frame_count
  end.

Definition temp_output (output_file : string) : string :=
  fst (OsPath.splitext os_path output_file) +:+ "_temp.mp4".

Definition codec_error : string :=
  "Could not open video file. Make sure Windows Media Player codecs are installed.".

(** The [try] block of [run], lines 41-105. *)
Definition run_body (input_file output_file : string) : M unit :=
  cap <- VideoCapture input_file ;;
  match cap with
  | None => raise (Exn "ValueError" codec_error)
  | Some cap =>
      let fps := CAP_PROP_FPS cap in
      let width := CAP_PROP_FRAME_WIDTH cap in
      let height := CAP_PROP_FRAME_HEIGHT cap in
      let total_frames := CAP_PROP_FRAME_COUNT cap in
      audio_clip <- try_except
                      (a <- AudioFileClip input_file ;; ret (Some a))
                      (fun _ => ret None) ;;
      let temp_output := temp_output output_file in
      out <- VideoWriter temp_output fps width height ;;
      frame_loop out total_frames (cap_frames cap) 0 ;;;
      invoke cap_release ;;;
      invoke out_release ;;;
      video_clip <- VideoFileClip temp_output ;;
      final_clip <- match audio_clip with
                    | Some a =>
                        invoke set_audio ;;;
                        ret {| video := video video_clip; audio := Some a |}
                    | None => ret video_clip
                    end ;;
      write_videofile_to output_file final_clip
        (match audio_clip with Some _ => Some "aac" | None => None end) ;;;
      invoke video_clip_close ;;;
      match audio_clip with
      | Some _ => invoke audio_clip_close
      | None => ret tt
      end ;;;
      remove temp_output ;;;
      emit (progress_updated 100) ;;;
      emit (conversion_finished true output_file)
  end.

(** [ConverterThread.run]. *)
Definition run (input_file output_file : string) : M unit :=
  try_except (run_body input_file output_file)
             (fun e => emit (conversion_finished false (exn_str e))).

End Worker.

(** A thread that has emitted nothing and called nothing yet. *)
Definition fresh (d : gmap string media) : State :=
  {| disk := d; signals := []; calls := [] |}.

(** The state a job leaves behind. *)
Definition final (w : World) (os_path : OsPath.flavour)
    (input_file output_file : string) (d : gmap string media) : State :=
  snd (run w os_path input_file output_file (fresh d)).

End ConverterThread.

(** ** [MediaConverterApp] *)

Module MediaConverterApp.
Import PyStr.

(** The part of the window that decides what the handlers below do or
    that they hand on: the selected input, the state of the conversion
    button, the text of the progress label, the visibility of the
    progress bar, the current entry of the format box, the message boxes
    shown and the workers started.  The file label and the style sheets,
    which nothing reads back, are left out. *)
Record Shell := {
  input_file : string;
  convert_btn_enabled : bool;
  progress_label : string;
  progress_visible : bool;
  format_combo : string;
  dialogs : list (string * string);
  threads_started : list (string * string)
}.

(** Line 205: the entries of the format box. *)
Definition format_items : list string :=
  ["MP4 (Recommended)"; "MOV"; "AVI"; "MKV"].

Definition supported_formats : list string :=
  [".wmv"; ".asf"; ".mp4"; ".mov"; ".avi"; ".mkv"].

Definition invalid_file_type : string :=
  "❌ INVALID FILE TYPE - USE .WMV, .ASF, .MP4, .MOV, .AVI OR .MKV".

(** Line 385: the test on the first dropped file. *)
Definition accepts (files : list string) : bool :=
  match files with
  | [] => false
  | f0 :: _ => existsb (fun ext => endswith (lower f0) ext) supported_formats
  end.

(** [dropEvent], on the local paths of the dropped URLs. *)
Definition dropEvent (files : list string) (sh : Shell) : Shell :=
  if accepts files
  then {| input_file := hd EmptyString files;
          convert_btn_enabled := true;
          progress_label := "READY TO CONVERT";
          progress_visible := progress_visible sh;
          format_combo := format_combo sh;
          dialogs := dialogs sh;
          threads_started := threads_started sh |}
  else {| input_file := input_file sh;
          convert_btn_enabled := convert_btn_enabled sh;
          progress_label := invalid_file_type;
          progress_visible := progress_visible sh;
          format_combo := format_combo sh;
          dialogs := dialogs sh;
          threads_started := threads_started sh |}.

(** Line 413: [currentText().split()[0].lower()]. *)
Definition output_format (label : string) : res string :=
  match split label with
  | [] => Raise (Exn "IndexError" "list index out of range")
  | t :: _ => Ok (lower t)
  end.

(** Line 414. *)
Definition output_file (os_path : OsPath.flavour) (input_file fmt : string)
  : string :=
  fst (OsPath.splitext os_path input_file) +:+ "." +:+ fmt.

(** [start_conversion], with the files on [d]. *)
Definition start_conversion (os_path : OsPath.flavour)
    (d : gmap string media) (sh : Shell) : res Shell :=
  if String.eqb (input_file sh) EmptyString
     || negb (bool_decide (is_Some (d !! input_file sh)))
  then Ok {| input_file := input_file sh;
             convert_btn_enabled := convert_btn_enabled sh;
             progress_label := progress_label sh;
             progress_visible := progress_visible sh;
             format_combo := format_combo sh;
             dialogs := dialogs sh ++ [("Error", "Input file does not exist!")];
             threads_started := threads_started sh |}
  else
    match output_format (format_combo sh) with
    | Raise e => Raise e
    | Ok fmt =>
        Ok {| input_file := input_file sh;
              convert_btn_enabled := false;
              progress_label := "CONVERTING... 0%";
              progress_visible := true;
              format_combo := format_combo sh;
              dialogs := dialogs sh;
              threads_started :=
                threads_started sh
                ++ [(input_file sh, output_file os_path (input_file sh) fmt)] |}
    end.

End MediaConverterApp.

(** ** Definitions used to state and prove the properties *)

(** [wp m s Q]: running [m] from [s] ends in a result and a state that
    satisfy [Q]. *)
Definition wp {A} (m : M A) (s : State) (Q : res A -> State -> Prop) : Prop :=
  Q (m s).1 (m s).2.

(** The frames handed to [out.write], in order. *)
Definition written (cs : list call) : list frame :=
  omap (fun c => match c with out_write _ f => Some f | _ => None end) cs.

(** The calls the frame loop makes. *)
Definition loop_call (c : call) : Prop :=
  match c with
  | cap_read _ | cv2_cvtColor _ _ | out_write _ _ => True
  | _ => False
  end.

(** What [out.write] has put on disk after the frames [ws]. *)
Definition appended (out : ConverterThread.Writer) (ws : list frame)
    (d : gmap string media) : gmap string media :=
  if ConverterThread.out_opened out
  then alter (fun m => {| video := video m ++ ws; audio := audio m |})
             (ConverterThread.out_path out) d
  else d.

(** Lines 52-55: the audio clip, or [None] when the extraction raises. *)
Definition audio_or_none (w : World) (path : string) : option AudioClip :=
  match extract_audio w path with
  | Ok a => Some a
  | Raise _ => None
  end.

(** The disk once [cv2.VideoWriter] has been built on [path]. *)
Definition opened_on (w : World) (path : string) (d : gmap string media)
  : gmap string media :=
  if writer_opens w path
  then <[path := {| video := []; audio := None |}]> d
  else d.

(** The disk once a failing [write_videofile] has returned. *)
Definition leftover_on (w : World) (path : string) (d : gmap string media)
  : gmap string media :=
  match mux_leftover w with
  | Some m => <[path := m]> d
  | None => d
  end.

(** What one pass of the frame loop does, started at [frame_count = k]
    in state [s]: [qs] are the percentages computed, [cs] the calls
    made, [nw] the number of frames handed to [out.write] and [nd] the
    number of them that reached the disk. *)
Inductive loop_post (w : World) (out : ConverterThread.Writer) (n : Z)
    (pending : list frame) (k : Z) (s : State) : res unit -> State -> Prop :=
| LoopPost r s' (qs : list Z) (cs : list call) (nw nd : nat) :
    signals s' =
      signals s ++ map (fun q => progress_updated (Z.min q 95)) qs ->
    (forall (i : nat) q, qs !! i = Some q ->
       progress_of (k + 1 + Z.of_nat i) n = Ok q) ->
    calls s' = calls s ++ cs ->
    Forall loop_call cs ->
    written cs = map cvtColor_BGR2RGB (take nw pending) ->
    disk s' = appended out (map cvtColor_BGR2RGB (take nd pending)) (disk s) ->
    (length qs <= nd <= nw)%nat ->
    (nw <= length pending)%nat ->
    (r = Ok tt -> length qs = length pending) ->
    (forall e, r = Raise e ->
       (exists c, In c cs /\ fault w c = Some e) \/
       (nw = S (length qs) /\ nd = nw /\
        progress_of (k + Z.of_nat nw) n = Raise e)) ->
    loop_post w out n pending k s r s'.

(** What [cv2.VideoCapture(path)] opens when the disk is [d]. *)
Definition opened (w : World) (d : gmap string media) (path : string)
  : option Capture :=
  match d !! path with
  | Some _ => decode w path
  | None => None
  end.

(** Line 75: the signal for a computed progress [q]. *)
Definition percent (q : Z) : signal := progress_updated (Z.min q 95).

(** [qs] are the values line 74 computes for the frames 1, 2, ... when
    the frame count is [n]. *)
Definition progress_values (n : Z) (qs : list Z) : Prop :=
  forall (i : nat) q, qs !! i = Some q -> progress_of (Z.of_nat i + 1) n = Ok q.

(** The signals a run ends with. *)
Definition closing (o : string) (r : res unit) : list signal :=
  match r with
  | Ok _ => [progress_updated 100; conversion_finished true o]
  | Raise _ => []
  end.

(** No library call raises. *)
Definition no_faults (w : World) : Prop := forall c, fault w c = None.

(** The exception the [try] block of a job ends with, if any. *)
Definition raised (w : World) (os_path : OsPath.flavour)
    (input_file output_file : string) (d : gmap string media) : option exn :=
  match (ConverterThread.run_body w os_path input_file output_file
           (ConverterThread.fresh d)).1 with
  | Ok _ => None
  | Raise e => Some e
  end.

(** Lines 82-85 and 90: the clip that is muxed and its audio codec. *)
Definition final_clip (audio_clip : option AudioClip) (video_clip : media)
  : media :=
  match audio_clip with
  | Some a => {| video := video video_clip; audio := Some a |}
  | None => video_clip
  end.

Definition audio_codec (audio_clip : option AudioClip) : option string :=
  match audio_clip with
  | Some _ => Some "aac"
  | None => None
  end.

(** The disk when the frame pass has written all of [frames] to the
    temporary file at [temp]. *)
Definition after_frame_pass (w : World) (temp : string) (frames : list frame)
    (d : gmap string media) : gmap string media :=
  appended {| ConverterThread.out_path := temp;
              ConverterThread.out_opened := writer_opens w temp |}
           (map cvtColor_BGR2RGB frames) (opened_on w temp d).

(** Line 74 raises for none of the frames of [cap]. *)
Definition progress_computable (cap : Capture) : Prop :=
  forall k, 1 <= k <= Z.of_nat (length (cap_frames cap)) ->
    exists q, progress_of k (CAP_PROP_FRAME_COUNT cap) = Ok q.

(** Everything but the audio extraction works: the input opens as [cap],
    no library call raises, the temporary file can be created and the
    progress can be computed. *)
Definition healthy (w : World) (os_path : OsPath.flavour)
    (input_file output_file : string) (d : gmap string media)
    (cap : Capture) : Prop :=
  opened w d input_file = Some cap /\
  no_faults w /\
  writer_opens w (ConverterThread.temp_output os_path output_file) = true /\
  progress_computable cap.




(** Sample data for the examples. *)
Module Sample.

Definition picture : frame := [[Px 10 20 30; Px 0 0 255]].

Definition capture (frame_count : Z) (frames : list frame) : Capture :=
  {| CAP_PROP_FPS := PyFloat.Finite 25 0;
     CAP_PROP_FRAME_WIDTH := 2;
     CAP_PROP_FRAME_HEIGHT := 1;
     CAP_PROP_FRAME_COUNT := frame_count;
     cap_frames := frames |}.

(** A file without a sound track, in a world where nothing else fails. *)
Definition silent_world (frame_count : Z) (frames : list frame) : World :=
  {| decode := fun _ => Some (capture frame_count frames);
     extract_audio := fun _ => Raise (Exn "KeyError" "'audio_fps'");
     writer_opens := fun _ => true;
     fault := fun _ => None;
     mux_leftover := None |}.

(** The same world, except that the mux raises. *)
Definition mux_error : exn := Exn "OSError" "[Errno 32] Broken pipe".

Definition failing_mux_world (frame_count : Z) (frames : list frame) : World :=
  {| decode := fun _ => Some (capture frame_count frames);
     extract_audio := fun _ => Raise (Exn "KeyError" "'audio_fps'");
     writer_opens := fun _ => true;
     fault := fun c => match c with
                       | write_videofile _ _ _ => Some mux_error
                       | _ => None
                       end;
     mux_leftover := None |}.

Definition folder : gmap string media :=
  {[ "clip.wmv" := {| video := []; audio := None |} ]}.

Definition idle : MediaConverterApp.Shell :=
  {| MediaConverterApp.input_file := "";
     MediaConverterApp.convert_btn_enabled := false;
     MediaConverterApp.progress_label := "";
     MediaConverterApp.progress_visible := false;
     MediaConverterApp.format_combo := "MP4 (Recommended)";
     MediaConverterApp.dialogs := [];
     MediaConverterApp.threads_started := [] |}.

End Sample.

(** *** Floats *)

(** The exponent and the mantissa [round_pos] gives a finite result. *)
Definition exponent_of (a b : Z) : Z :=
  Z.max (PyFloat.ilog2 a b - (PyFloat.prec - 1)) PyFloat.emin.

Definition mantissa_of (a b : Z) : Z :=
  PyFloat.nearest_even (a * 2 ^ Z.max 0 (- exponent_of a b))
                       (b * 2 ^ Z.max 0 (exponent_of a b)).

(** [m1 * 2^e1 <= m2 * 2^e2], without fractions. *)
Definition value_le (m1 e1 m2 e2 : Z) : Prop :=
  m1 * 2 ^ Z.max 0 e1 * 2 ^ Z.max 0 (- e2)
  <= m2 * 2 ^ Z.max 0 e2 * 2 ^ Z.max 0 (- e1).

(** [floor (m * 2^e)]. *)
Definition floor_of (m e : Z) : Z := (m * 2 ^ Z.max 0 e) / 2 ^ Z.max 0 (- e).

(** What line 74 computes for positive arguments, when it raises
    nothing: the quotient is rounded, multiplied by 100, rounded again
    and truncated. *)
Definition percent_of (k n : Z) : Z :=
  let m := mantissa_of k n in
  let e := exponent_of k n in
  if m =? 0 then 0
  else
    let a := m * 100 * 2 ^ Z.max 0 e in
    let b := 2 ^ Z.max 0 (- e) in
    floor_of (mantissa_of a b) (exponent_of a b).

(** The reference: binary64 as the Standard Library specifies it
    ([SpecFloat], precision 53, [emax] 1024), to compare [PyFloat]
    with. *)
Definition binary64_of (x : PyFloat.float) : spec_float :=
  match x with
  | PyFloat.Finite m e => binary_normalize 53 1024 m e false
  | PyFloat.Infinity s => S754_infinity s
  | PyFloat.NaN => S754_nan
  end.

Definition reference_quotient (k n : Z) : spec_float :=
  SFdiv 53 1024 (binary_normalize 53 1024 k 0 false)
                (binary_normalize 53 1024 n 0 false).

(** [k / n] and [k / n * 100] come out as in the reference. *)
Definition agrees_with_reference (k n : Z) : bool :=
  match PyFloat.truediv k n with
  | Ok x =>
      SFeqb (binary64_of x) (reference_quotient k n) &&
      SFeqb (binary64_of (PyFloat.mul x (PyFloat.of_int 100)))
            (SFmul 53 1024 (reference_quotient k n)
                   (binary_normalize 53 1024 100 0 false))
  | Raise _ => false
  end.

Definition first_integers (n : nat) : list Z := map Z.of_nat (seq 1 n).

(** ** The library calls of a job, in order *)

(** The calls of the frame loop, lines 65-75, started at [frame_count]
    with the frames [pending] still to come: a read, a conversion and a
    write for each frame, and the read that answers [False]. *)
Fixpoint loop_calls (frame_count : Z) (pending : list frame) : list call :=
  match pending with
  | [] => [cap_read frame_count]
  | f :: pending' =>
      [cap_read frame_count; cv2_cvtColor frame_count f;
       out_write frame_count (cvtColor_BGR2RGB f)]
      ++ loop_calls (frame_count + 1) pending'
  end.

(** The calls of lines 42-102, in the order of the source, for an input
    that opened as [cap], the audio clip of lines 52-55 and the clip that
    line 81 reads back from the temporary file. *)
Definition pipeline (os_path : OsPath.flavour) (input_file output_file : string)
    (cap : Capture) (audio_clip : option AudioClip) (video_clip : media)
  : list call :=
  let temp_output := ConverterThread.temp_output os_path output_file in
  [cv2_VideoCapture input_file;
   mpy_AudioFileClip input_file;
   cv2_VideoWriter temp_output (CAP_PROP_FPS cap) (CAP_PROP_FRAME_WIDTH cap)
                   (CAP_PROP_FRAME_HEIGHT cap)]
  ++ loop_calls 0 (cap_frames cap)
  ++ [cap_release; out_release; mpy_VideoFileClip temp_output]
  ++ match audio_clip with Some _ => [set_audio] | None => [] end
  ++ [write_videofile output_file (final_clip audio_clip video_clip)
                      (audio_codec audio_clip);
      video_clip_close]
  ++ match audio_clip with Some _ => [audio_clip_close] | None => [] end
  ++ [os_remove temp_output].

(** ** Paths *)




(** [sepIndex] of [_splitext]: the index of the last separator, or -1. *)
Definition sepIndex (fl : OsPath.flavour) (p : string) : Z :=
  match OsPath.altsep fl with
  | Some a => Z.max (PyStr.rfind p (OsPath.sep fl)) (PyStr.rfind p a)
  | None => PyStr.rfind p (OsPath.sep fl)
  end.

(** ** More of Python's [str] *)

Module PyFormat.
Import PyStr.

(** [str.upper], one character at a time, on ASCII text. *)
Definition upper_char (c : ascii) : ascii :=
  if (97 <=? code c) && (code c <=? 122)
  then ascii_of_N (N_of_ascii c - 32) else c.

Fixpoint upper (s : string) : string :=
  match s with
  | EmptyString => EmptyString
  | String c s' => String (upper_char c) (upper s')
  end.

(** [str(n)] for an [int], which is also what [{n}] gives in an
    f-string: the decimal digits, after a minus sign when [n < 0]. *)
Definition str_of_int (n : Z) : string := NilZero.string_of_int (Z.to_int n).

(** The line feed of [\n]. *)
Definition LF : string := String "010" EmptyString.

End PyFormat.

(** [posixpath.basename]: [i = p.rfind('/') + 1; return p[i:]]. *)
Module PosixPath.

Definition basename (p : string) : string :=
  PyStr.slice_from p (PyStr.rfind p "/" + 1).

End PosixPath.

(** ** The window, widget by widget *)

(** [MediaConverterApp] with every widget its handlers touch.  The
    handlers are those of the section above, with what they do to the
    file label, the style sheet of the progress label, the progress bar
    and the message boxes written out as well. *)
Module MainWindow.
Import PyStr PyFormat.

(** [QMessageBox.critical] and [QMessageBox.information]. *)
Inductive icon := Critical | Information.

Record message_box := {
  box_icon : icon;
  box_title : string;
  box_text : string
}.

(** The state of the window:
    - [input_file] and [converter_thread], the two attributes of line
      115-116, a thread being its input and its output path;
    - the text of [file_label], whether [convert_btn] is enabled, the
      current text of [format_combo], whether [progress] is visible;
    - [animated_to], the values [progress.setValueAnimated] was called
      with, oldest first: [AnimatedProgressBar] restarts its animation
      from the value shown towards each of them;
    - the text and the style sheet of [progress_label];
    - the message boxes shown and the threads started, oldest first. *)
Record Window := {
  input_file : string;
  converter_thread : option (string * string);
  file_label : string;
  convert_btn_enabled : bool;
  format_combo : string;
  progress_visible : bool;
  animated_to : list Z;
  progress_label : string;
  progress_label_style : string;
  message_boxes : list message_box;
  threads_started : list (string * string)
}.

(** The assignments and the widget calls, one field each. *)
Definition set_input_file (v : string) (win : Window) : Window :=
  {| input_file := v;
     converter_thread := converter_thread win;
     file_label := file_label win;
     convert_btn_enabled := convert_btn_enabled win;
     format_combo := format_combo win;
     progress_visible := progress_visible win;
     animated_to := animated_to win;
     progress_label := progress_label win;
     progress_label_style := progress_label_style win;
     message_boxes := message_boxes win;
     threads_started := threads_started win |}.

Definition file_label_setText (v : string) (win : Window) : Window :=
  {| input_file := input_file win;
     converter_thread := converter_thread win;
     file_label := v;
     convert_btn_enabled := convert_btn_enabled win;
     format_combo := format_combo win;
     progress_visible := progress_visible win;
     animated_to := animated_to win;
     progress_label := progress_label win;
     progress_label_style := progress_label_style win;
     message_boxes := message_boxes win;
     threads_started := threads_started win |}.

Definition convert_btn_setEnabled (v : bool) (win : Window) : Window :=
  {| input_file := input_file win;
     converter_thread := converter_thread win;
     file_label := file_label win;
     convert_btn_enabled := v;
     format_combo := format_combo win;
     progress_visible := progress_visible win;
     animated_to := animated_to win;
     progress_label := progress_label win;
     progress_label_style := progress_label_style win;
     message_boxes := message_boxes win;
     threads_started := threads_started win |}.

Definition format_combo_setCurrentText (v : string) (win : Window) : Window :=
  {| input_file := input_file win;
     converter_thread := converter_thread win;
     file_label := file_label win;
     convert_btn_enabled := convert_btn_enabled win;
     format_combo := v;
     progress_visible := progress_visible win;
     animated_to := animated_to win;
     progress_label := progress_label win;
     progress_label_style := progress_label_style win;
     message_boxes := message_boxes win;
     threads_started := threads_started win |}.

Definition progress_setVisible (v : bool) (win : Window) : Window :=
  {| input_file := input_file win;
     converter_thread := converter_thread win;
     file_label := file_label win;
     convert_btn_enabled := convert_btn_enabled win;
     format_combo := format_combo win;
     progress_visible := v;
     animated_to := animated_to win;
     progress_label := progress_label win;
     progress_label_style := progress_label_style win;
     message_boxes := message_boxes win;
     threads_started := threads_started win |}.

Definition progress_setValueAnimated (value : Z) (win : Window) : Window :=
  {| input_file := input_file win;
     converter_thread := converter_thread win;
     file_label := file_label win;
     convert_btn_enabled := convert_btn_enabled win;
     format_combo := format_combo win;
     progress_visible := progress_visible win;
     animated_to := animated_to win ++ [value];
     progress_label := progress_label win;
     progress_label_style := progress_label_style win;
     message_boxes := message_boxes win;
     threads_started := threads_started win |}.

Definition progress_label_setText (v : string) (win : Window) : Window :=
  {| input_file := input_file win;
     converter_thread := converter_thread win;
     file_label := file_label win;
     convert_btn_enabled := convert_btn_enabled win;
     format_combo := format_combo win;
     progress_visible := progress_visible win;
     animated_to := animated_to win;
     progress_label := v;
     progress_label_style := progress_label_style win;
     message_boxes := message_boxes win;
     threads_started := threads_started win |}.

Definition progress_label_setStyleSheet (v : string) (win : Window) : Window :=
  {| input_file := input_file win;
     converter_thread := converter_thread win;
     file_label := file_label win;
     convert_btn_enabled := convert_btn_enabled win;
     format_combo := format_combo win;
     progress_visible := progress_visible win;
     animated_to := animated_to win;
     progress_label := progress_label win;
     progress_label_style := v;
     message_boxes := message_boxes win;
     threads_started := threads_started win |}.

Definition QMessageBox (i : icon) (title text : string) (win : Window)
  : Window :=
  {| input_file := input_file win;
     converter_thread := converter_thread win;
     file_label := file_label win;
     convert_btn_enabled := convert_btn_enabled win;
     format_combo := format_combo win;
     progress_visible := progress_visible win;
     animated_to := animated_to win;
     progress_label := progress_label win;
     progress_label_style := progress_label_style win;
     message_boxes :=
       message_boxes win
       ++ [{| box_icon := i; box_title := title; box_text := text |}];
     threads_started := threads_started win |}.

(** Lines 422-425: the thread is made, kept in [self.converter_thread],
    connected and started. *)
Definition start_thread (input_file output_file : string) (win : Window)
  : Window :=
  {| input_file := MainWindow.input_file win;
     converter_thread := Some (input_file, output_file);
     file_label := file_label win;
     convert_btn_enabled := convert_btn_enabled win;
     format_combo := format_combo win;
     progress_visible := progress_visible win;
     animated_to := animated_to win;
     progress_label := progress_label win;
     progress_label_style := progress_label_style win;
     message_boxes := message_boxes win;
     threads_started := threads_started win ++ [(input_file, output_file)] |}.

(** The style sheets of the progress label. *)
Definition green : string :=
  "color: #4CAF50; font-weight: bold; font-size: 16px;".
Definition red : string :=
  "color: #F44336; font-weight: bold; font-size: 16px;".
Definition orange : string :=
  "color: #FF9800; font-weight: bold; font-size: 16px;".
Definition deep_orange : string :=
  "color: #FF5722; font-weight: bold; font-size: 16px;".

(** Lines 286-290, the style sheet the label is made with. *)
Definition plain : string :=
  LF +:+ "            font-size: 16px;"
  +:+ LF +:+ "            color: #333333;"
  +:+ LF +:+ "            font-weight: bold;"
  +:+ LF +:+ "        ".

(** The window that [__init__] leaves: nothing selected, the button
    disabled (line 241), the first entry of the format box current, the
    bar hidden (line 282), an empty progress label. *)
Definition init : Window :=
  {| input_file := "";
     converter_thread := None;
     file_label := "Drag & drop a media file or click below";
     convert_btn_enabled := false;
     format_combo := "MP4 (Recommended)";
     progress_visible := false;
     animated_to := [];
     progress_label := "";
     progress_label_style := plain;
     message_boxes := [];
     threads_started := [] |}.

(** [dragEnterEvent]: the drag is accepted when it carries URLs. *)
Definition dragEnterEvent (hasUrls : bool) : bool := hasUrls.

Section Handlers.

(** [os.path], as far as the window uses it: the flavour of [splitext]
    and [basename]. *)
Variable os_path : OsPath.flavour.
Variable basename : string -> string.

(** [dropEvent], on the local paths of the dropped URLs. *)
Definition dropEvent (files : list string) (win : Window) : Window :=
  if MediaConverterApp.accepts files
  then
    let win := set_input_file (hd EmptyString files) win in
    let win := file_label_setText
                 ("SELECTED: " +:+ upper (basename (input_file win))) win in
    let win := convert_btn_setEnabled true win in
    let win := progress_label_setText "READY TO CONVERT" win in
    progress_label_setStyleSheet green win
  else
    let win := progress_label_setText MediaConverterApp.invalid_file_type win in
    progress_label_setStyleSheet red win.

(** [select_file], on the path [QFileDialog.getOpenFileName] returns,
    which is empty when the dialog is cancelled. *)
Definition select_file (file : string) (win : Window) : Window :=
  if negb (String.eqb file EmptyString)
  then
    let win := set_input_file file win in
    let win := file_label_setText
                 ("SELECTED: " +:+ upper (basename file)) win in
    let win := convert_btn_setEnabled true win in
    let win := progress_label_setText "READY TO CONVERT" win in
    progress_label_setStyleSheet green win
  else win.

(** [start_conversion], with the files on [d]. *)
Definition start_conversion (d : gmap string media) (win : Window)
  : res Window :=
  if String.eqb (input_file win) EmptyString
     || negb (bool_decide (is_Some (d !! input_file win)))
  then Ok (QMessageBox Critical "Error" "Input file does not exist!" win)
  else
    match MediaConverterApp.output_format (format_combo win) with
    | Raise e => Raise e
    | Ok output_format =>
        let output_file :=
          MediaConverterApp.output_file os_path (input_file win)
                                        output_format in
        let win := progress_setVisible true win in
        let win := progress_setValueAnimated 0 win in
        let win := progress_label_setText "CONVERTING... 0%" win in
        let win := progress_label_setStyleSheet orange win in
        let win := convert_btn_setEnabled false win in
        Ok (start_thread (input_file win) output_file win)
    end.

(** [update_progress], the slot of [progress_updated]. *)
Definition update_progress (value : Z) (win : Window) : Window :=
  let win := progress_setValueAnimated value win in
  let win := progress_label_setText
               ("CONVERTING... " +:+ str_of_int value +:+ "%") win in
  if value <? 30 then progress_label_setStyleSheet orange win
  else if value <? 70 then progress_label_setStyleSheet deep_orange win
  else progress_label_setStyleSheet green win.

(** [conversion_complete], the slot of [conversion_finished]. *)
Definition conversion_complete (success : bool) (message : string)
    (win : Window) : Window :=
  let win := progress_setVisible false win in
  let win := convert_btn_setEnabled true win in
  if success
  then
    let win := progress_label_setText "✅ CONVERSION SUCCESSFUL!" win in
    let win := progress_label_setStyleSheet green win in
    QMessageBox Information "SUCCESS"
                ("File converted successfully:" +:+ LF +:+ message) win
  else
    let win := progress_label_setText
                 ("❌ CONVERSION FAILED: " +:+ message) win in
    let win := progress_label_setStyleSheet red win in
    QMessageBox Critical "ERROR"
                ("Conversion failed:" +:+ LF +:+ message) win.

(** What reaches the window: a drop, the answer of the file dialog, a
    choice in the format box, a press of the conversion button with the
    files then on disk, and a signal of a worker, which Qt hands to the
    slot connected in lines 423-424. *)
Inductive event :=
| Dropped (files : list string)
| Browsed (file : string)
| Chosen (label : string)
| Clicked (d : gmap string media)
| Received (sg : signal).

(** The slot a signal runs. *)
Definition slot (sg : signal) (win : Window) : Window :=
  match sg with
  | progress_updated value => update_progress value win
  | conversion_finished success message =>
      conversion_complete success message win
  end.

(** The handler an event runs.  A disabled button is not clicked. *)
Definition handle (ev : event) (win : Window) : res Window :=
  match ev with
  | Dropped files => Ok (dropEvent files win)
  | Browsed file => Ok (select_file file win)
  | Chosen label => Ok (format_combo_setCurrentText label win)
  | Clicked d =>
      if convert_btn_enabled win then start_conversion d win else Ok win
  | Received sg => Ok (slot sg win)
  end.

(** The signals of a worker, handed to the slots in the order they were
    emitted. *)
Definition deliver (sgs : list signal) (win : Window) : Window :=
  fold_left (fun win sg => slot sg win) sgs win.

End Handlers.

(** The part of the window that the section above calls [Shell]. *)
Definition shell_of (win : Window) : MediaConverterApp.Shell :=
  {| MediaConverterApp.input_file := input_file win;
     MediaConverterApp.convert_btn_enabled := convert_btn_enabled win;
     MediaConverterApp.progress_label := progress_label win;
     MediaConverterApp.progress_visible := progress_visible win;
     MediaConverterApp.format_combo := format_combo win;
     MediaConverterApp.dialogs :=
       map (fun b => (box_title b, box_text b)) (message_boxes win);
     MediaConverterApp.threads_started := threads_started win |}.

End MainWindow.

(** An event that can reach the window in state [win]: the format box
    offers its four entries only, and a signal needs a worker that was
    started. *)
Definition possible (win : MainWindow.Window) (ev : MainWindow.event) : Prop :=
  match ev with
  | MainWindow.Chosen label => In label MediaConverterApp.format_items
  | MainWindow.Received _ => MainWindow.threads_started win <> []
  | _ => True
  end.

(** The states the window can be in: the one [__init__] leaves, and
    those a handler leaves when it returns. *)
Inductive reachable (os_path : OsPath.flavour) (basename : string -> string)
  : MainWindow.Window -> Prop :=
| reachable_init : reachable os_path basename MainWindow.init
| reachable_step win ev win' :
    reachable os_path basename win ->
    possible win ev ->
    MainWindow.handle os_path basename ev win = Ok win' ->
    reachable os_path basename win'.

(** A started thread whose output path is derived as line 413-414
    derive it, for one of the four containers. *)
Definition well_formed_job (os_path : OsPath.flavour) (job : string * string)
  : Prop :=
  job.1 <> "" /\
  exists fmt, In fmt ["mp4"; "mov"; "avi"; "mkv"] /\
              job.2 = MediaConverterApp.output_file os_path job.1 fmt.

(** ** The script around the window *)

(** Lines 1-15 and 460-514: the imports at the top of the file, and the
    block that runs when the file is run as a script. *)
Module Script.

(** The interpreter, as far as imports go.
    - [load_module loaded name]: what loading module [name] does when it
      is not in [sys.modules], where [loaded] are: [None] when it loads,
      or the exception it raises.
    - [find_name module name]: [None] when the loaded [module] defines
      [name], or the exception that [from module import name] raises. *)
Record Interpreter := {
  load_module : list string -> string -> option exn;
  find_name : string -> string -> option exn
}.

Inductive statement :=
| ImportModule (module : string)
| ImportFrom (module : string) (names : list string).

(** [import module]: a module in [sys.modules] is not loaded again. *)
Definition import (py : Interpreter) (module : string)
    (sys_modules : list string) : res unit * list string :=
  if existsb (String.eqb module) sys_modules
  then (Ok tt, sys_modules)
  else match load_module py sys_modules module with
       | Some e => (Raise e, sys_modules)
       | None => (Ok tt, module :: sys_modules)
       end.

Fixpoint import_names (py : Interpreter) (module : string)
    (names : list string) : res unit :=
  match names with
  | [] => Ok tt
  | name :: names' =>
      match find_name py module name with
      | Some e => Raise e
      | None => import_names py module names'
      end
  end.

Definition exec (py : Interpreter) (st : statement)
    (sys_modules : list string) : res unit * list string :=
  match st with
  | ImportModule module => import py module sys_modules
  | ImportFrom module names =>
      match import py module sys_modules with
      | (Ok _, sys_modules') =>
          (import_names py module names, sys_modules')
      | (Raise e, sys_modules') => (Raise e, sys_modules')
      end
  end.

Fixpoint exec_all (py : Interpreter) (sts : list statement)
    (sys_modules : list string) : res unit * list string :=
  match sts with
  | [] => (Ok tt, sys_modules)
  | st :: sts' =>
      match exec py st sys_modules with
      | (Ok _, sys_modules') => exec_all py sts' sys_modules'
      | (Raise e, sys_modules') => (Raise e, sys_modules')
      end
  end.

(** Lines 1-14. *)
Definition top_imports : list statement :=
  [ImportModule "os"; ImportModule "sys"; ImportModule "cv2";
   ImportModule "moviepy.editor";
   ImportFrom "PyQt5.QtWidgets"
     ["QApplication"; "QMainWindow"; "QVBoxLayout"; "QPushButton";
      "QLabel"; "QFileDialog"; "QProgressBar"; "QComboBox"; "QWidget";
      "QMessageBox"; "QHBoxLayout"; "QFrame"];
   ImportFrom "PyQt5.QtCore"
     ["Qt"; "QThread"; "pyqtSignal"; "QSize"; "QPropertyAnimation";
      "QEasingCurve"];
   ImportFrom "PyQt5.QtGui"
     ["QIcon"; "QFont"; "QPixmap"; "QPalette"; "QColor";
      "QLinearGradient"; "QBrush"];
   ImportModule "warnings"].

(** Lines 463-465, the imports inside the [try]. *)
Definition checked_imports : list statement :=
  [ImportModule "cv2"; ImportModule "moviepy.editor";
   ImportFrom "PyQt5.QtWidgets" ["QApplication"]].

(** [except ImportError]: the class or its subclass. *)
Definition is_ImportError (e : exn) : bool :=
  String.eqb (exn_class e) "ImportError"
  || String.eqb (exn_class e) "ModuleNotFoundError".

(** How a run of the script goes on after its imports: with a traceback,
    with the [Missing Dependencies] box of lines 467-500 and its
    informative text, or with lines 502-514, which make the window and
    run it. *)
Inductive outcome :=
| Traceback (e : exn)
| MissingDependencies (informative_text : string)
| WindowRuns.

Definition informative_text (e : exn) : string :=
  "Please install these packages first:" +:+ PyFormat.LF +:+ PyFormat.LF
  +:+ "pip install opencv-python moviepy numpy PyQt5"
  +:+ PyFormat.LF +:+ PyFormat.LF
  +:+ "Error: " +:+ exn_str e.

(** The script, started with [sys_modules] loaded. *)
Definition main (py : Interpreter) (sys_modules : list string) : outcome :=
  match exec_all py top_imports sys_modules with
  | (Raise e, _) => Traceback e
  | (Ok _, sys_modules') =>
      match exec_all py checked_imports sys_modules' with
      | (Raise e, _) =>
          if is_ImportError e
          then MissingDependencies (informative_text e)
          else Traceback e
      | (Ok _, _) => WindowRuns
      end
  end.

End Script.

(** Lines 430-435: the style sheet [update_progress] gives the label. *)
Definition style_of (value : Z) : string :=
  if value <? 30 then MainWindow.orange
  else if value <? 70 then MainWindow.deep_orange
  else MainWindow.green.

(** What holds in every state the window can be in: the format box shows
    one of its entries; a file is selected when the conversion button is
    enabled or a worker was started; every worker was started on a
    well-formed pair of paths; the progress bar is visible only after a
    worker was started; [self.converter_thread] is the last worker. *)
Definition window_invariant (os_path : OsPath.flavour)
    (win : MainWindow.Window) : Prop :=
  In (MainWindow.format_combo win) MediaConverterApp.format_items /\
  (MainWindow.convert_btn_enabled win = true
   \/ MainWindow.threads_started win <> [] ->
   MainWindow.input_file win <> "") /\
  Forall (well_formed_job os_path) (MainWindow.threads_started win) /\
  (MainWindow.progress_visible win = true ->
   MainWindow.threads_started win <> []) /\
  MainWindow.converter_thread win = last (MainWindow.threads_started win).

(** The two calls whose failure is not an exception of the job: the
    capture reports it through [isOpened], and the exception of the audio
    clip is dropped by lines 52-55. *)
Definition opens_input (c : call) : Prop :=
  match c with
  | cv2_VideoCapture _ | mpy_AudioFileClip _ => True
  | _ => False
  end.

(** More sample data. *)
Module MoreSamples.
Import Sample.

Definition track : AudioClip :=
  {| audio_source := "clip.wmv"; audio_samples := [0; 3; -3] |}.

(** A file with a sound track, in a world where nothing fails. *)
Definition sound_world (frame_count : Z) (frames : list frame) : World :=
  {| decode := fun _ => Some (capture frame_count frames);
     extract_audio := fun _ => Ok track;
     writer_opens := fun _ => true;
     fault := fun _ => None;
     mux_leftover := None |}.




(** [Sample.picture] with its first and third channel exchanged. *)
Definition swapped : frame := [[Px 30 20 10; Px 255 0 0]].

End MoreSamples.

(** The handlers of a list of events, one after the other. *)
Fixpoint handle_all (os_path : OsPath.flavour) (basename : string -> string)
    (evs : list MainWindow.event) (win : MainWindow.Window)
  : res MainWindow.Window :=
  match evs with
  | [] => Ok win
  | ev :: evs' =>
      match MainWindow.handle os_path basename ev win with
      | Ok win' => handle_all os_path basename evs' win'
      | Raise e => Raise e
      end
  end.

(** ** Examples *)

Module StrExamples.
Import PyStr OsPath.

Example lower_mixed : lower "MP4 (Recommended)" = "mp4 (recommended)".
Proof. reflexivity. Qed.

Example split_label : split "MP4 (Recommended)" = ["MP4"; "(Recommended)"].
Proof. reflexivity. Qed.

Example split_blank : split "  " = [].
Proof. reflexivity. Qed.

Example endswith_yes : endswith "c:/v/clip.wmv" ".wmv" = true.
Proof. reflexivity. Qed.

Example endswith_short : endswith "wmv" ".wmv" = false.
Proof. reflexivity. Qed.

Example splitext_plain :
  splitext posixpath "/v/clip.tar.wmv" = ("/v/clip.tar", ".wmv").
Proof. reflexivity. Qed.

Example splitext_dotfile : splitext posixpath "/v/.wmv" = ("/v/.wmv", "").
Proof. reflexivity. Qed.

Example splitext_dot_in_dir : splitext posixpath "/v.d/clip" = ("/v.d/clip", "").
Proof. reflexivity. Qed.

Example splitext_nt : splitext ntpath "C:\v.d\clip.WMV" = ("C:\v.d\clip", ".WMV").
Proof. reflexivity. Qed.

End StrExamples.

Module FloatExamples.

(** CPython gives [int(29 / 100 * 100) == 28]: the quotient is rounded
    down, and so is the product. *)
Example progress_29_of_100 : progress_of 29 100 = Ok 28.
Proof. reflexivity. Qed.

Example progress_1_of_3 : progress_of 1 3 = Ok 33.
Proof. reflexivity. Qed.

Example progress_past_the_end : progress_of 7 5 = Ok 140.
Proof. reflexivity. Qed.

Example progress_negative_count : progress_of 2 (-1) = Ok (-200).
Proof. reflexivity. Qed.

Example progress_zero_count :
  progress_of 1 0 = Raise (Exn "ZeroDivisionError" "division by zero").
Proof. reflexivity. Qed.

(** All quotients of two integers up to 64, and a few large ones, are
    rounded as the reference rounds them. *)
Example small_quotients_agree :
  forallb (fun k => forallb (agrees_with_reference k) (first_integers 64))
          (first_integers 64) = true.
Proof. vm_compute. reflexivity. Qed.

Example large_quotients_agree :
  forallb (fun k =>
             forallb (agrees_with_reference k)
                     [3; 7; 2 ^ 52 + 1; 2 ^ 53 - 1; 10 ^ 15 + 7; 3 ^ 33])
          [1; 5; 2 ^ 52 + 1; 2 ^ 53 - 1; 10 ^ 15 + 7; 3 ^ 33; 2 ^ 53 - 5]
  = true.
Proof. vm_compute. reflexivity. Qed.

End FloatExamples.

(** ** Facts about strings and paths *)

Module StrFacts.
Import PyStr OsPath.

Lemma app_cons c s t : String c s +:+ t = String c (s +:+ t).
Proof. done. Qed.


Lemma take_drop n s : take n s +:+ drop n s = s.
Proof.
  revert s. induction n as [|n IH]; intros [|c s]; simpl; try done.
  by rewrite app_cons, IH.
Qed.




Lemma length_take n s :
  String.length (take n s) = Nat.min n (String.length s).
Proof.
  revert s. induction n as [|n IH]; intros [|c s]; simpl; try done.
  by rewrite IH.
Qed.

Lemma app_nil_r s : s +:+ "" = s.
Proof. induction s as [|c s IH]; [done|]. by rewrite app_cons, IH. Qed.

Lemma app_assoc s t u : (s +:+ t) +:+ u = s +:+ t +:+ u.
Proof. induction s as [|c s IH]; [done|]. by rewrite !app_cons, IH. Qed.



Lemma length_lower s : String.length (lower s) = String.length s.
Proof. induction s as [|c s IH]; simpl; [done|]. by rewrite IH. Qed.

Lemma lower_take n s : lower (take n s) = take n (lower s).
Proof.
  revert s. induction n as [|n IH]; intros [|c s]; simpl; try done.
  by rewrite IH.
Qed.


(** Where [rfind] points, the needle is. *)
Lemma rfind_go_spec s c : forall i last,
  rfind_go s c i last = last \/
  (i <= rfind_go s c i last < i + len s /\
   exists rest,
     drop (Z.to_nat (rfind_go s c i last - i)) s = String c rest).
Proof.
  unfold len. induction s as [|a s IH]; intros i last; simpl; [by left|].
  destruct (IH (i + 1) (if Ascii.eqb a c then i else last))
    as [Heq | (Hr & rest & Hd)].
  - rewrite Heq. destruct (Ascii.eqb_spec a c) as [->|]; [|by left].
    right. split; [lia|]. exists s. by rewrite Z.sub_diag.
  - right. split; [lia|]. exists rest.
    set (r := rfind_go s c (i + 1) _) in *.
    replace (Z.to_nat (r - i)) with (S (Z.to_nat (r - (i + 1)))) by lia.
    done.
Qed.

Lemma rfind_spec s c :
  rfind s c = -1 \/
  (0 <= rfind s c < len s /\ exists rest, drop (Z.to_nat (rfind s c)) s = String c rest).
Proof.
  unfold rfind. destruct (rfind_go_spec s c 0 (-1)) as [H | (Hr & rest & Hd)].
  - by left.
  - right. split; [lia|]. exists rest. by rewrite Z.sub_0_r in Hd.
Qed.

Lemma rfind_lower_bound s c : -1 <= rfind s c.
Proof. destruct (rfind_spec s c) as [->|[? _]]; lia. Qed.

Lemma clip_in_range s i : 0 <= i <= len s -> clip s i = Z.to_nat i.
Proof.
  intros Hi. unfold clip. destruct (Z.ltb_spec i 0); [lia|].
  by rewrite Z.min_r by lia.
Qed.

Lemma skip_dots_cases p dotIndex filenameIndex fuel :
  skip_dots p dotIndex filenameIndex fuel = (p, "") \/
  skip_dots p dotIndex filenameIndex fuel =
    (slice_to p dotIndex, slice_from p dotIndex).
Proof.
  revert filenameIndex. induction fuel as [|fuel IH]; intros k; simpl; [by left|].
  destruct (negb _); [by right | apply IH].
Qed.

(** [splitext] cuts the path in two, and the second part is empty or
    begins with the dot. *)
Lemma splitext_spec fl p :
  (splitext fl p).1 +:+ (splitext fl p).2 = p /\
  ((splitext fl p).2 = "" \/ exists rest, (splitext fl p).2 = String "." rest).
Proof.
  unfold splitext.
  set (sepIndex := match altsep fl with
                   | Some a => Z.max (rfind p (sep fl)) (rfind p a)
                   | None => rfind p (sep fl)
                   end).
  assert (Hsep : -1 <= sepIndex).
  { subst sepIndex. pose proof (rfind_lower_bound p (sep fl)).
    destruct (altsep fl); lia. }
  destruct (Z.ltb_spec sepIndex (rfind p extsep)) as [Hlt|Hge].
  2:{ simpl. split; [apply app_nil_r | by left]. }
  destruct (skip_dots_cases p (rfind p extsep) (sepIndex + 1)
              (Z.to_nat (rfind p extsep - (sepIndex + 1)))) as [-> | ->]; simpl.
  { split; [apply app_nil_r | by left]. }
  destruct (rfind_spec p extsep) as [Hm | (Hr & rest & Hd)]; [lia|].
  unfold slice_to, slice_from. rewrite clip_in_range by lia.
  split; [apply take_drop|]. right. exists rest. apply Hd.
Qed.

Lemma splitext_app fl p : (splitext fl p).1 +:+ (splitext fl p).2 = p.
Proof. apply splitext_spec. Qed.

End StrFacts.

(** ** Facts about floats *)

Module FloatFacts.
Import PyFloat.

Lemma pow2_pos z : 0 <= z -> 0 < 2 ^ z.
Proof. intros. by apply Z.pow_pos_nonneg. Qed.

Lemma pow2_ge_1 z : 0 <= z -> 1 <= 2 ^ z.
Proof. intros. pose proof (pow2_pos z). lia. Qed.

(** [a / b <= 2 ^ (v - u)] keeps holding when [v - u] grows. *)
Lemma shift_le a b u v u' v' :
  0 <= a -> 0 <= u -> 0 <= v -> 0 <= u' -> 0 <= v' ->
  v - u <= v' - u' ->
  a * 2 ^ u <= b * 2 ^ v -> a * 2 ^ u' <= b * 2 ^ v'.
Proof.
  intros Ha Hu Hv Hu' Hv' Hd H.
  set (k := (v' - u') - (v - u)).
  assert (Hpow : 2 ^ u * 2 ^ v' = 2 ^ u' * 2 ^ v * 2 ^ k).
  { rewrite <- !Z.pow_add_r by lia. f_equal. lia. }
  pose proof (pow2_pos u Hu). pose proof (pow2_pos v Hv).
  pose proof (pow2_pos u' Hu'). pose proof (pow2_pos v' Hv').
  pose proof (pow2_ge_1 k ltac:(lia)).
  apply (Z.mul_le_mono_pos_r _ _ (2 ^ v)); [done|].
  transitivity (a * 2 ^ u' * 2 ^ v * 2 ^ k).
  - rewrite <- (Z.mul_1_r (a * 2 ^ u' * 2 ^ v)) at 1.
    apply Z.mul_le_mono_nonneg_l; [|done]. 
    apply Z.mul_nonneg_nonneg; [|lia]. apply Z.mul_nonneg_nonneg; lia.
  - replace (a * 2 ^ u' * 2 ^ v * 2 ^ k) with (a * (2 ^ u' * 2 ^ v * 2 ^ k)) by ring.
    rewrite <- Hpow.
    replace (a * (2 ^ u * 2 ^ v')) with (a * 2 ^ u * 2 ^ v') by ring.
    replace (b * 2 ^ v' * 2 ^ v) with (b * 2 ^ v * 2 ^ v') by ring.
    apply Z.mul_le_mono_nonneg_r; lia.
Qed.

(** The same for a strict bound. *)
Lemma shift_lt a b u v u' v' :
  0 <= a -> 0 <= u -> 0 <= v -> 0 <= u' -> 0 <= v' ->
  v - u <= v' - u' ->
  a * 2 ^ u < b * 2 ^ v -> a * 2 ^ u' < b * 2 ^ v'.
Proof.
  intros Ha Hu Hv Hu' Hv' Hd H.
  set (k := (v' - u') - (v - u)).
  assert (Hpow : 2 ^ u * 2 ^ v' = 2 ^ u' * 2 ^ v * 2 ^ k).
  { rewrite <- !Z.pow_add_r by lia. f_equal. lia. }
  pose proof (pow2_pos u Hu). pose proof (pow2_pos v Hv).
  pose proof (pow2_pos u' Hu'). pose proof (pow2_pos v' Hv').
  pose proof (pow2_ge_1 k ltac:(lia)).
  apply (Z.mul_lt_mono_pos_r (2 ^ v)); [done|].
  apply Z.le_lt_trans with (a * 2 ^ u' * 2 ^ v * 2 ^ k).
  - rewrite <- (Z.mul_1_r (a * 2 ^ u' * 2 ^ v)) at 1.
    apply Z.mul_le_mono_nonneg_l; [|done]. 
    apply Z.mul_nonneg_nonneg; [|lia]. apply Z.mul_nonneg_nonneg; lia.
  - replace (a * 2 ^ u' * 2 ^ v * 2 ^ k) with (a * (2 ^ u' * 2 ^ v * 2 ^ k)) by ring.
    rewrite <- Hpow.
    replace (a * (2 ^ u * 2 ^ v')) with (a * 2 ^ u * 2 ^ v') by ring.
    replace (b * 2 ^ v' * 2 ^ v) with (b * 2 ^ v * 2 ^ v') by ring.
    apply Z.mul_lt_mono_pos_r; lia.
Qed.

(** [2 ^ (v - u) <= a / b] keeps holding when [v - u] shrinks. *)
Lemma shift_ge a b u v u' v' :
  0 <= b -> 0 <= u -> 0 <= v -> 0 <= u' -> 0 <= v' ->
  v' - u' <= v - u ->
  b * 2 ^ v <= a * 2 ^ u -> b * 2 ^ v' <= a * 2 ^ u'.
Proof.
  intros Hb Hu Hv Hu' Hv' Hd H.
  apply (shift_le b a v u v' u'); try done. lia.
Qed.

Lemma scale_eq a b e :
  scale a b e = (a * 2 ^ Z.max 0 (- e), b * 2 ^ Z.max 0 e).
Proof.
  unfold scale. destruct (Z.leb_spec 0 e).
  - rewrite Z.max_l, Z.max_r by lia. simpl. f_equal. lia.
  - rewrite Z.max_r, Z.max_l by lia. simpl. f_equal. lia.
Qed.

(** [2 ^ l <= a / b < 2 ^ (l + 1)] for [l = ilog2 a b]. *)
Lemma ilog2_spec a b :
  0 < a -> 0 < b ->
  b * 2 ^ Z.max 0 (ilog2 a b) <= a * 2 ^ Z.max 0 (- ilog2 a b) /\
  a * 2 ^ Z.max 0 (- ilog2 a b) < b * 2 ^ (1 + Z.max 0 (ilog2 a b)).
Proof.
  intros Ha Hb. unfold ilog2. rewrite scale_eq.
  destruct (Z.log2_spec a Ha) as [Hla1 Hla2].
  destruct (Z.log2_spec b Hb) as [Hlb1 Hlb2].
  pose proof (Z.log2_nonneg a). pose proof (Z.log2_nonneg b).
  set (la := Z.log2 a) in *. set (lb := Z.log2 b) in *.
  set (d := la - lb).
  (* the two bounds on a / b that the logarithms give *)
  assert (Hlow : b * 2 ^ Z.max 0 (d - 1) < a * 2 ^ Z.max 0 (- (d - 1))).
  { apply Z.lt_le_trans with (2 ^ Z.succ lb * 2 ^ Z.max 0 (d - 1)).
    - apply Z.mul_lt_mono_pos_r; [apply pow2_pos; lia | done].
    - transitivity (2 ^ la * 2 ^ Z.max 0 (- (d - 1))).
      + rewrite <- !Z.pow_add_r by lia. apply Z.pow_le_mono_r; lia.
      + apply Z.mul_le_mono_nonneg_r; [|done].
        pose proof (pow2_pos (Z.max 0 (- (d - 1)))). lia. }
  assert (Hhigh : a * 2 ^ Z.max 0 (- d) < b * 2 ^ (1 + Z.max 0 d)).
  { apply Z.lt_le_trans with (2 ^ Z.succ la * 2 ^ Z.max 0 (- d)).
    - apply Z.mul_lt_mono_pos_r; [apply pow2_pos; lia | done].
    - transitivity (2 ^ lb * 2 ^ (1 + Z.max 0 d)).
      + rewrite <- !Z.pow_add_r by lia. apply Z.pow_le_mono_r; lia.
      + apply Z.mul_le_mono_nonneg_r; [|done].
        pose proof (pow2_pos (1 + Z.max 0 d)). lia. }
  destruct (Z.leb_spec (b * 2 ^ Z.max 0 d) (a * 2 ^ Z.max 0 (- d))) as [Hge|Hlt].
  - done.
  - split; [lia|].
    apply (shift_lt a b (Z.max 0 (- d)) (Z.max 0 d)); try lia.
Qed.

Lemma ilog2_mono a1 b1 a2 b2 :
  0 < a1 -> 0 < b1 -> 0 < a2 -> 0 < b2 ->
  a1 * b2 <= a2 * b1 -> ilog2 a1 b1 <= ilog2 a2 b2.
Proof.
  intros Ha1 Hb1 Ha2 Hb2 Hle.
  destruct (ilog2_spec a1 b1 Ha1 Hb1) as [Hl1 _].
  destruct (ilog2_spec a2 b2 Ha2 Hb2) as [_ Hh2].
  set (l1 := ilog2 a1 b1) in *. set (l2 := ilog2 a2 b2) in *.
  destruct (Z.le_gt_cases l1 l2) as [|Hgt]; [done|exfalso].
  (* 2^(l2+1) <= 2^l1 <= a1/b1 <= a2/b2 < 2^(l2+1) *)
  set (U := Z.max 0 (l2 + 1)). set (V := Z.max 0 (- (l2 + 1))).
  assert (H1 : b1 * 2 ^ U <= a1 * 2 ^ V).
  { apply (shift_ge a1 b1 (Z.max 0 (- l1)) (Z.max 0 l1)); subst U V; lia. }
  assert (H2 : a2 * 2 ^ V < b2 * 2 ^ U).
  { apply (shift_lt a2 b2 (Z.max 0 (- l2)) (1 + Z.max 0 l2)); subst U V; lia. }
  pose proof (pow2_pos U ltac:(lia)). pose proof (pow2_pos V ltac:(lia)).
  assert (a1 * b2 * 2 ^ V <= a2 * b1 * 2 ^ V) by (apply Z.mul_le_mono_nonneg_r; lia).
  assert (b1 * 2 ^ U * b2 <= a1 * 2 ^ V * b2) by (apply Z.mul_le_mono_nonneg_r; lia).
  assert (a2 * 2 ^ V * b1 < b2 * 2 ^ U * b1) by (apply Z.mul_lt_mono_pos_r; lia).
  lia.
Qed.

(** The integer [nearest_even n d] is within one half of [n / d], and is
    even when it is exactly one half away. *)
Lemma nearest_even_spec n d :
  0 <= n -> 0 < d ->
  let m := nearest_even n d in
  (2 * m - 1) * d <= 2 * n <= (2 * m + 1) * d /\
  (2 * n = (2 * m + 1) * d -> Z.even m = true) /\
  (2 * n = (2 * m - 1) * d -> Z.even m = true).
Proof.
  intros Hn Hd. unfold nearest_even.
  pose proof (Z.div_mod n d ltac:(lia)) as Hdm.
  pose proof (Z.mod_pos_bound n d Hd) as Hr.
  set (q := n / d) in *. set (r := n mod d) in *.
  destruct (Z.ltb_spec (2 * r) d); [simpl; nia|].
  destruct (Z.ltb_spec d (2 * r)); [simpl; nia|].
  assert (2 * r = d) by lia.
  destruct (Z.even q) eqn:Hev; simpl.
  - split; [nia|]. split; [done|]. nia.
  - split; [nia|]. split; [nia|]. intros _.
    rewrite Z.even_add, Hev. done.
Qed.

Lemma nearest_even_mono n1 d1 n2 d2 :
  0 <= n1 -> 0 < d1 -> 0 <= n2 -> 0 < d2 ->
  n1 * d2 <= n2 * d1 -> nearest_even n1 d1 <= nearest_even n2 d2.
Proof.
  intros Hn1 Hd1 Hn2 Hd2 Hle.
  destruct (nearest_even_spec n1 d1 Hn1 Hd1) as ([Hlo1 _] & _ & Hev1).
  destruct (nearest_even_spec n2 d2 Hn2 Hd2) as ([_ Hhi2] & Hev2 & _).
  set (m1 := nearest_even n1 d1) in *. set (m2 := nearest_even n2 d2) in *.
  destruct (Z.le_gt_cases m1 m2) as [|Hgt]; [done|exfalso].
  assert (H1 : (2 * m1 - 1) * d1 * d2 <= 2 * n1 * d2)
    by (apply Z.mul_le_mono_nonneg_r; lia).
  assert (H2 : 2 * n2 * d1 <= (2 * m2 + 1) * d2 * d1)
    by (apply Z.mul_le_mono_nonneg_r; lia).
  assert (H3 : (2 * m2 + 1) * (d1 * d2) <= (2 * m1 - 1) * (d1 * d2))
    by (apply Z.mul_le_mono_nonneg_r; nia).
  assert (Hm : m1 = m2 + 1) by nia.
  assert (He1 : 2 * n1 = (2 * m1 - 1) * d1) by nia.
  assert (He2 : 2 * n2 = (2 * m2 + 1) * d2) by nia.
  specialize (Hev1 He1). specialize (Hev2 He2).
  rewrite Hm, Z.even_add, Hev2 in Hev1. done.
Qed.

Lemma nearest_even_exact k d : 0 <= k -> 0 < d -> nearest_even (k * d) d = k.
Proof.
  intros Hk Hd. unfold nearest_even.
  rewrite Z.div_mul, Z.mod_mul by lia.
  destruct (Z.ltb_spec (2 * 0) d); [done|lia].
Qed.

Lemma nearest_even_nonneg n d : 0 <= n -> 0 < d -> 0 <= nearest_even n d.
Proof.
  intros Hn Hd. rewrite <- (nearest_even_exact 0 d) by lia.
  apply nearest_even_mono; lia.
Qed.

Lemma round_pos_cases a b :
  round_pos a b = Finite (mantissa_of a b) (exponent_of a b) \/
  round_pos a b = Infinity false.
Proof.
  unfold round_pos. rewrite scale_eq.
  fold (exponent_of a b). fold (mantissa_of a b).
  destruct (_ || _); auto.
Qed.

Lemma mantissa_upper a b : 0 < a -> 0 < b -> 0 <= mantissa_of a b <= 2 ^ 53.
Proof.
  intros Ha Hb. unfold mantissa_of.
  set (e := exponent_of a b).
  pose proof (pow2_pos (Z.max 0 (- e)) ltac:(lia)).
  pose proof (pow2_pos (Z.max 0 e) ltac:(lia)).
  split; [apply nearest_even_nonneg; nia|].
  rewrite <- (nearest_even_exact (2 ^ 53) (b * 2 ^ Z.max 0 e)) by nia.
  apply nearest_even_mono; try nia.
  destruct (ilog2_spec a b Ha Hb) as [_ Hhi].
  assert (Hlt : a * 2 ^ Z.max 0 (- e) < b * 2 ^ (53 + Z.max 0 e)).
  { apply (shift_lt a b (Z.max 0 (- ilog2 a b)) (1 + Z.max 0 (ilog2 a b)));
      try lia.
    subst e. unfold exponent_of, prec, emin. lia. }
  rewrite Z.pow_add_r in Hlt by lia. nia.
Qed.

Lemma mantissa_lower a b :
  0 < a -> 0 < b -> emin < exponent_of a b -> 2 ^ 52 <= mantissa_of a b.
Proof.
  intros Ha Hb He. unfold mantissa_of.
  set (e := exponent_of a b) in *.
  pose proof (pow2_pos (Z.max 0 (- e)) ltac:(lia)).
  pose proof (pow2_pos (Z.max 0 e) ltac:(lia)).
  rewrite <- (nearest_even_exact (2 ^ 52) (b * 2 ^ Z.max 0 e)) at 1 by nia.
  apply nearest_even_mono; try nia.
  destruct (ilog2_spec a b Ha Hb) as [Hlo _].
  assert (Hle : b * 2 ^ (52 + Z.max 0 e) <= a * 2 ^ Z.max 0 (- e)).
  { apply (shift_ge a b (Z.max 0 (- ilog2 a b)) (Z.max 0 (ilog2 a b)));
      try lia.
    subst e. unfold exponent_of, prec, emin in *. lia. }
  rewrite Z.pow_add_r in Hle by lia. nia.
Qed.

Lemma exponent_mono a1 b1 a2 b2 :
  0 < a1 -> 0 < b1 -> 0 < a2 -> 0 < b2 ->
  a1 * b2 <= a2 * b1 -> exponent_of a1 b1 <= exponent_of a2 b2.
Proof.
  intros. unfold exponent_of.
  pose proof (ilog2_mono a1 b1 a2 b2). lia.
Qed.

(** Rounding to nearest keeps the order. *)
Lemma round_pos_mono a1 b1 a2 b2 :
  0 < a1 -> 0 < b1 -> 0 < a2 -> 0 < b2 ->
  a1 * b2 <= a2 * b1 ->
  value_le (mantissa_of a1 b1) (exponent_of a1 b1)
           (mantissa_of a2 b2) (exponent_of a2 b2).
Proof.
  intros Ha1 Hb1 Ha2 Hb2 Hle.
  pose proof (exponent_mono a1 b1 a2 b2 Ha1 Hb1 Ha2 Hb2 Hle) as He.
  unfold value_le.
  set (e1 := exponent_of a1 b1) in *. set (e2 := exponent_of a2 b2) in *.
  pose proof (pow2_pos (Z.max 0 e1) ltac:(lia)).
  pose proof (pow2_pos (Z.max 0 (- e1)) ltac:(lia)).
  pose proof (pow2_pos (Z.max 0 e2) ltac:(lia)).
  pose proof (pow2_pos (Z.max 0 (- e2)) ltac:(lia)).
  destruct (Z.eq_dec e1 e2) as [Heq|Hne].
  - assert (Hm : mantissa_of a1 b1 <= mantissa_of a2 b2).
    { unfold mantissa_of. fold e1 e2. rewrite <- Heq.
      apply nearest_even_mono; nia. }
    rewrite <- Heq.
    apply Z.mul_le_mono_nonneg_r; [lia|].
    apply Z.mul_le_mono_nonneg_r; [lia|done].
  - pose proof (mantissa_upper a1 b1 Ha1 Hb1) as [_ Hup].
    assert (Hemin : emin < e2).
    { assert (emin <= e1) by (subst e1; unfold exponent_of; lia). lia. }
    pose proof (mantissa_lower a2 b2 Ha2 Hb2 Hemin) as Hlow.
    transitivity (2 ^ 53 * 2 ^ Z.max 0 e1 * 2 ^ Z.max 0 (- e2)).
    { apply Z.mul_le_mono_nonneg_r; [lia|].
      apply Z.mul_le_mono_nonneg_r; [lia|done]. }
    transitivity (2 ^ 52 * 2 ^ Z.max 0 e2 * 2 ^ Z.max 0 (- e1)).
    { rewrite <- !Z.pow_add_r by lia. apply Z.pow_le_mono_r; lia. }
    apply Z.mul_le_mono_nonneg_r; [lia|].
    apply Z.mul_le_mono_nonneg_r; [lia|done].
Qed.

Lemma floor_of_mono m1 e1 m2 e2 :
  0 <= m1 -> value_le m1 e1 m2 e2 -> floor_of m1 e1 <= floor_of m2 e2.
Proof.
  unfold value_le, floor_of. intros Hm Hle.
  pose proof (pow2_pos (Z.max 0 e1) ltac:(lia)).
  pose proof (pow2_pos (Z.max 0 (- e1)) ltac:(lia)).
  pose proof (pow2_pos (Z.max 0 e2) ltac:(lia)).
  pose proof (pow2_pos (Z.max 0 (- e2)) ltac:(lia)).
  set (n1 := m1 * 2 ^ Z.max 0 e1) in *. set (d1 := 2 ^ Z.max 0 (- e1)) in *.
  set (n2 := m2 * 2 ^ Z.max 0 e2) in *. set (d2 := 2 ^ Z.max 0 (- e2)) in *.
  apply Z.div_le_lower_bound; [done|].
  pose proof (Z.mul_div_le n1 d1 ltac:(lia)) as Hq.
  assert (0 <= n1) by (subst n1; apply Z.mul_nonneg_nonneg; lia).
  clearbody n1 d1 n2 d2.
  apply (Z.mul_le_mono_pos_l _ _ d1); [done|].
  transitivity (n1 * d2); [|lia].
  replace (d1 * (d2 * (n1 / d1))) with (d1 * (n1 / d1) * d2) by ring.
  apply Z.mul_le_mono_nonneg_r; lia.
Qed.

Lemma to_int_floor m e : 0 <= m -> to_int (Finite m e) = Ok (floor_of m e).
Proof.
  intros Hm. unfold to_int, floor_of. f_equal.
  destruct (Z.leb_spec 0 e).
  - rewrite (Z.max_r 0 e), (Z.max_l 0 (- e)) by lia. simpl.
    by rewrite Z.div_1_r.
  - rewrite (Z.max_l 0 e), (Z.max_r 0 (- e)) by lia. simpl.
    rewrite Z.mul_1_r. apply Z.quot_div_nonneg; [done|].
    apply pow2_pos. lia.
Qed.

Lemma round_positive a b : 0 < a -> 0 < b -> round a b = round_pos a b.
Proof.
  intros Ha Hb. unfold round.
  destruct (Z.eqb_spec a 0); [lia|].
  rewrite !Z.abs_eq by lia.
  rewrite (Z.sgn_pos a), (Z.sgn_pos b) by done. done.
Qed.

Lemma mul_100 m e :
  mul (Finite m e) (of_int 100) =
    round (m * 100 * 2 ^ Z.max 0 e) (2 ^ Z.max 0 (- e)).
Proof.
  unfold mul, of_int. rewrite scale_eq.
  replace (- - (e + 0)) with e by lia. replace (- (e + 0)) with (- e) by lia.
  by rewrite Z.mul_1_l.
Qed.

Lemma progress_of_Ok k n q :
  0 < k -> 0 < n -> progress_of k n = Ok q -> q = percent_of k n.
Proof.
  intros Hk Hn. unfold progress_of, truediv.
  destruct (Z.eqb_spec n 0); [lia|].
  rewrite round_positive by done.
  destruct (round_pos_cases k n) as [-> | ->]; [|done].
  rewrite mul_100. unfold percent_of.
  pose proof (mantissa_upper k n Hk Hn) as [Hm _].
  set (m := mantissa_of k n) in *. set (e := exponent_of k n) in *.
  destruct (Z.eqb_spec m 0) as [->|Hm0].
  - simpl. unfold round. simpl. by intros [= <-].
  - pose proof (pow2_pos (Z.max 0 e) ltac:(lia)).
    pose proof (pow2_pos (Z.max 0 (- e)) ltac:(lia)).
    assert (Ha : 0 < m * 100 * 2 ^ Z.max 0 e) by nia.
    rewrite round_positive by done.
    destruct (round_pos_cases (m * 100 * 2 ^ Z.max 0 e) (2 ^ Z.max 0 (- e)))
      as [-> | ->]; [|done].
    rewrite to_int_floor.
    + by intros [= <-].
    + by apply mantissa_upper.
Qed.

Lemma percent_of_nonneg k n : 0 < k -> 0 < n -> 0 <= percent_of k n.
Proof.
  intros Hk Hn. unfold percent_of.
  pose proof (mantissa_upper k n Hk Hn) as [Hm _].
  set (m := mantissa_of k n) in *. set (e := exponent_of k n) in *.
  destruct (Z.eqb_spec m 0) as [|Hm0]; [done|].
  pose proof (pow2_pos (Z.max 0 e) ltac:(lia)).
  pose proof (pow2_pos (Z.max 0 (- e)) ltac:(lia)).
  assert (Ha : 0 < m * 100 * 2 ^ Z.max 0 e) by nia.
  pose proof (mantissa_upper _ _ Ha H0) as [Hm' _].
  unfold floor_of. apply Z.div_pos.
  - apply Z.mul_nonneg_nonneg; [done|]. apply Z.pow_nonneg. lia.
  - apply pow2_pos. lia.
Qed.

(** The percentage grows with the number of frames written. *)
Lemma percent_of_mono k1 k2 n :
  0 < n -> 0 < k1 -> k1 <= k2 -> percent_of k1 n <= percent_of k2 n.
Proof.
  intros Hn Hk1 Hle.
  assert (Hk2 : 0 < k2) by lia.
  pose proof (round_pos_mono k1 n k2 n Hk1 Hn Hk2 Hn ltac:(nia)) as Hv.
  pose proof (percent_of_nonneg k2 n Hk2 Hn) as Hnn.
  unfold percent_of in *.
  pose proof (mantissa_upper k1 n Hk1 Hn) as [Hm1 _].
  pose proof (mantissa_upper k2 n Hk2 Hn) as [Hm2 _].
  set (m1 := mantissa_of k1 n) in *. set (e1 := exponent_of k1 n) in *.
  set (m2 := mantissa_of k2 n) in *. set (e2 := exponent_of k2 n) in *.
  pose proof (pow2_pos (Z.max 0 e1) ltac:(lia)).
  pose proof (pow2_pos (Z.max 0 (- e1)) ltac:(lia)).
  pose proof (pow2_pos (Z.max 0 e2) ltac:(lia)).
  pose proof (pow2_pos (Z.max 0 (- e2)) ltac:(lia)).
  destruct (Z.eqb_spec m1 0) as [Hz1|Hnz1]; [done|].
  destruct (Z.eqb_spec m2 0) as [Hz2|Hnz2].
  { exfalso. unfold value_le in Hv. rewrite Hz2 in Hv.
    assert (0 < m1 * 2 ^ Z.max 0 e1 * 2 ^ Z.max 0 (- e2)) by nia. lia. }
  apply floor_of_mono.
  - apply mantissa_upper; nia.
  - apply round_pos_mono; try nia.
    unfold value_le in Hv.
    replace (m1 * 100 * 2 ^ Z.max 0 e1 * 2 ^ Z.max 0 (- e2))
      with (100 * (m1 * 2 ^ Z.max 0 e1 * 2 ^ Z.max 0 (- e2))) by ring.
    replace (m2 * 100 * 2 ^ Z.max 0 e2 * 2 ^ Z.max 0 (- e1))
      with (100 * (m2 * 2 ^ Z.max 0 e2 * 2 ^ Z.max 0 (- e1))) by ring.
    lia.
Qed.

Lemma progress_of_mono n k1 k2 q1 q2 :
  0 < n -> 0 < k1 -> k1 <= k2 ->
  progress_of k1 n = Ok q1 -> progress_of k2 n = Ok q2 ->
  0 <= q1 <= q2.
Proof.
  intros Hn Hk1 Hle H1 H2.
  apply progress_of_Ok in H1 as ->; [|done..].
  apply progress_of_Ok in H2 as ->; [|lia|done].
  split; [by apply percent_of_nonneg | by apply percent_of_mono].
Qed.

Lemma ilog2_le_log2 a b : 0 < a -> 0 < b -> ilog2 a b <= Z.log2 a.
Proof.
  intros Ha Hb. unfold ilog2. pose proof (Z.log2_nonneg b).
  destruct (scale a b (Z.log2 a - Z.log2 b)) as [n m].
  destruct (m <=? n); lia.
Qed.

(** Far from the largest double, rounding gives a finite value. *)
Lemma round_pos_finite a b :
  0 < a -> 0 < b -> a < 2 ^ 100 ->
  round_pos a b = Finite (mantissa_of a b) (exponent_of a b) /\
  exponent_of a b <= 47.
Proof.
  intros Ha Hb Hlt.
  assert (He : exponent_of a b <= 47).
  { unfold exponent_of, prec, emin.
    pose proof (ilog2_le_log2 a b Ha Hb).
    apply Z.log2_lt_pow2 in Hlt; [|done]. lia. }
  split; [|done].
  unfold round_pos. rewrite scale_eq.
  fold (exponent_of a b). fold (mantissa_of a b).
  unfold emax, prec.
  destruct (Z.ltb_spec (1024 - 53) (exponent_of a b)); [lia|].
  destruct (Z.eqb_spec (exponent_of a b) (1024 - 53)); [lia|]. done.
Qed.

(** Line 74 raises nothing for a positive frame count and a frame number
    that fits 63 bits. *)
Lemma progress_of_defined k n :
  0 < n -> 0 < k < 2 ^ 63 -> progress_of k n = Ok (percent_of k n).
Proof.
  intros Hn [Hk Hlt]. unfold progress_of, truediv.
  destruct (Z.eqb_spec n 0); [lia|].
  rewrite round_positive by done.
  assert (Hk100 : k < 2 ^ 100).
  { apply Z.lt_le_trans with (2 ^ 63); [done|]. apply Z.pow_le_mono_r; lia. }
  destruct (round_pos_finite k n Hk Hn Hk100) as [-> _].
  rewrite mul_100. unfold percent_of.
  pose proof (mantissa_upper k n Hk Hn) as [Hm Hup].
  assert (He : exponent_of k n <= 10).
  { unfold exponent_of, prec, emin.
    pose proof (ilog2_le_log2 k n Hk Hn).
    apply Z.log2_lt_pow2 in Hlt; [|done]. lia. }
  set (m := mantissa_of k n) in *. set (e := exponent_of k n) in *.
  destruct (Z.eqb_spec m 0) as [->|Hm0]; [done|].
  pose proof (pow2_pos (Z.max 0 e) ltac:(lia)).
  pose proof (pow2_pos (Z.max 0 (- e)) ltac:(lia)).
  assert (Hp : 2 ^ Z.max 0 e <= 2 ^ 10) by (apply Z.pow_le_mono_r; lia).
  assert (Ha : 0 < m * 100 * 2 ^ Z.max 0 e) by nia.
  assert (Hb : m * 100 * 2 ^ Z.max 0 e < 2 ^ 100).
  { apply Z.le_lt_trans with (2 ^ 53 * 100 * 2 ^ 10); [|done].
    apply Z.mul_le_mono_nonneg; lia. }
  rewrite round_positive by done.
  destruct (round_pos_finite _ _ Ha H0 Hb) as [-> _].
  rewrite to_int_floor; [done|]. by apply mantissa_upper.
Qed.

End FloatFacts.

(** ** Reasoning about the worker *)

Section WpRules.
Context {A B : Type}.

Lemma wp_ret (a : A) s Q : Q (Ok a) s -> wp (ret a) s Q.
Proof. done. Qed.

Lemma wp_raise (e : exn) s (Q : res A -> State -> Prop) :
  Q (Raise e) s -> wp (raise e) s Q.
Proof. done. Qed.

Lemma wp_lift (r : res A) s Q : Q r s -> wp (lift r) s Q.
Proof. done. Qed.

Lemma wp_bind (m : M A) (k : A -> M B) s Q :
  wp m s (fun r s' => match r with
                      | Ok a => wp (k a) s' Q
                      | Raise e => Q (Raise e) s'
                      end) ->
  wp (bind m k) s Q.
Proof. unfold wp, bind. by destruct (m s) as [[a|e] s']. Qed.

Lemma wp_try_except (body : M A) (handler : exn -> M A) s Q :
  wp body s (fun r s' => match r with
                         | Ok a => Q (Ok a) s'
                         | Raise e => wp (handler e) s' Q
                         end) ->
  wp (try_except body handler) s Q.
Proof. unfold wp, try_except. by destruct (body s) as [[a|e] s']. Qed.

Lemma wp_mono (m : M A) s (Q Q' : res A -> State -> Prop) :
  wp m s Q -> (forall r s', Q r s' -> Q' r s') -> wp m s Q'.
Proof. unfold wp. auto. Qed.

End WpRules.

Lemma wp_emit sg s Q :
  Q (Ok tt) {| disk := disk s; signals := signals s ++ [sg]; calls := calls s |} ->
  wp (emit sg) s Q.
Proof. done. Qed.

Lemma wp_log c s Q :
  Q (Ok tt) {| disk := disk s; signals := signals s; calls := calls s ++ [c] |} ->
  wp (log c) s Q.
Proof. done. Qed.

Lemma wp_get_disk s Q : Q (Ok (disk s)) s -> wp get_disk s Q.
Proof. done. Qed.

Lemma wp_set_disk d s Q :
  Q (Ok tt) {| disk := d; signals := signals s; calls := calls s |} ->
  wp (set_disk d) s Q.
Proof. done. Qed.

(** One step of symbolic execution through the monad's combinators. *)
Ltac wp_step :=
  first [ apply wp_bind | apply wp_ret | apply wp_raise | apply wp_lift
        | apply wp_emit | apply wp_log | apply wp_get_disk
        | apply wp_set_disk | apply wp_try_except ].

Lemma written_app cs1 cs2 : written (cs1 ++ cs2) = written cs1 ++ written cs2.
Proof. apply omap_app. Qed.

Section WorkerFacts.
Import ConverterThread.

Variable w : World.
Variable os_path : OsPath.flavour.

Lemma wp_invoke c s Q :
  (forall e, fault w c = Some e ->
     Q (Raise e) {| disk := disk s; signals := signals s;
                    calls := calls s ++ [c] |}) ->
  (fault w c = None ->
     Q (Ok tt) {| disk := disk s; signals := signals s;
                  calls := calls s ++ [c] |}) ->
  wp (invoke w c) s Q.
Proof.
  intros Hraise Hok. unfold invoke. wp_step. wp_step. simpl.
  destruct (fault w c) as [e|] eqn:Hf; wp_step; auto.
Qed.

Lemma appended_nil out d : appended out [] d = d.
Proof.
  unfold appended. destruct (out_opened out); [|done].
  apply map_eq; intros p. rewrite lookup_alter.
  case_decide; [|done]. subst.
  destruct (d !! out_path out) as [[v a]|]; simpl; [|done].
  by rewrite app_nil_r.
Qed.

Lemma appended_snoc out ws f d :
  appended out [f] (appended out ws d) = appended out (ws ++ [f]) d.
Proof.
  unfold appended. destruct (out_opened out); [|done].
  apply map_eq; intros p. rewrite !lookup_alter.
  repeat case_decide; try done.
  destruct (d !! out_path out) as [[v a]|]; simpl; [|done].
  by rewrite app_assoc.
Qed.

Lemma appended_cons out ws f d :
  appended out ws (appended out [f] d) = appended out (f :: ws) d.
Proof.
  unfold appended. destruct (out_opened out); [|done].
  apply map_eq; intros p. rewrite !lookup_alter.
  repeat case_decide; try done.
  destruct (d !! out_path out) as [[v a]|]; simpl; [|done].
  by rewrite <- app_assoc.
Qed.

Lemma wp_write out i f s Q :
  (forall e, fault w (out_write i f) = Some e ->
     Q (Raise e) {| disk := disk s; signals := signals s;
                    calls := calls s ++ [out_write i f] |}) ->
  (fault w (out_write i f) = None ->
     Q (Ok tt) {| disk := appended out [f] (disk s); signals := signals s;
                  calls := calls s ++ [out_write i f] |}) ->
  wp (write w out i f) s Q.
Proof.
  intros Hraise Hok. unfold write. wp_step. apply wp_invoke; [done|].
  intros Hf. specialize (Hok Hf). unfold appended in Hok.
  destruct (out_opened out); repeat wp_step; done.
Qed.

Lemma wp_frame_loop out n pending : forall k s Q,
  (forall r s', loop_post w out n pending k s r s' -> Q r s') ->
  wp (frame_loop w out n pending k) s Q.
Proof.
  induction pending as [|f pending IH]; intros k s Q HQ; simpl frame_loop.
  - apply wp_invoke; intros; apply HQ;
      apply (LoopPost _ _ _ _ _ _ _ _ [] [cap_read k] 0%nat 0%nat); simpl;
      rewrite ?app_nil_r, ?appended_nil; auto; try lia; try done.
    + repeat constructor.
    + intros e' [= ->]. left. eauto.
    + repeat constructor.
  - wp_step. apply wp_invoke.
    { intros e He. apply HQ.
      apply (LoopPost _ _ _ _ _ _ _ _ [] [cap_read k] 0%nat 0%nat); simpl;
        rewrite ?app_nil_r, ?appended_nil; auto; try lia; try done.
      - repeat constructor.
      - intros e' [= ->]. left. eauto. }
    intros _. wp_step. apply wp_invoke.
    { intros e He. apply HQ.
      apply (LoopPost _ _ _ _ _ _ _ _ [] [cap_read k; cv2_cvtColor k f]
               0%nat 0%nat);
        simpl; rewrite ?app_nil_r, ?appended_nil, <- ?app_assoc; auto;
        try lia; try done.
      - repeat constructor.
      - intros e' [= ->]. left. eauto. }
    intros _. wp_step. apply wp_write.
    { intros e He. apply HQ.
      apply (LoopPost _ _ _ _ _ _ _ _ []
               [cap_read k; cv2_cvtColor k f;
                out_write k (cvtColor_BGR2RGB f)] 1%nat 0%nat);
        simpl; rewrite ?app_nil_r, ?appended_nil, <- ?app_assoc; auto;
        try lia; try done.
      - repeat constructor.
      - intros e' [= ->]. left. eauto 6. }
    intros _. wp_step. wp_step.
    destruct (progress_of (k + 1) n) as [q|e] eqn:Hq.
    2:{ apply HQ.
      apply (LoopPost _ _ _ _ _ _ _ _ []
               [cap_read k; cv2_cvtColor k f;
                out_write k (cvtColor_BGR2RGB f)] 1%nat 1%nat);
        simpl; rewrite ?app_nil_r, <- ?app_assoc; auto; try lia; try done.
      - repeat constructor.
      - intros e' [= ->]. right. by repeat split. }
    wp_step. wp_step. apply IH. simpl.
    intros r s' [r' s'' qs cs nw nd Hsig Hqs Hcalls Hcs Hw Hd Hle Hlen Hok Herr].
    simpl in *. apply HQ.
    apply (LoopPost _ _ _ _ _ _ _ _ (q :: qs)
             ([cap_read k; cv2_cvtColor k f;
               out_write k (cvtColor_BGR2RGB f)] ++ cs) (S nw) (S nd)).
    + rewrite Hsig. simpl. by rewrite <- app_assoc.
    + intros [|i] q' Hi; simpl in Hi.
      * injection Hi as <-. rewrite <- Hq; f_equal; lia.
      * apply Hqs in Hi. rewrite <- Hi; f_equal; lia.
    + rewrite Hcalls. by rewrite <- !app_assoc.
    + apply Forall_app. split; [repeat constructor | done].
    + rewrite written_app, Hw. done.
    + rewrite Hd. simpl. by rewrite appended_cons.
    + simpl. lia.
    + simpl. lia.
    + intros ->. simpl. f_equal. auto.
    + intros e ->. destruct (Herr e eq_refl) as [(c & Hin & Hc)|(-> & -> & Hp)].
      * left. exists c. split; [|done]. apply in_app_iff. by right.
      * right. repeat split; try done. rewrite <- Hp; f_equal; lia.
Qed.

Lemma wp_VideoCapture path s Q :
  Q (Ok (opened w (disk s) path))
    {| disk := disk s; signals := signals s;
       calls := calls s ++ [cv2_VideoCapture path] |} ->
  wp (VideoCapture w path) s Q.
Proof. intros H. unfold VideoCapture. by repeat wp_step. Qed.

Lemma wp_try_AudioFileClip path s Q :
  Q (Ok (audio_or_none w path))
    {| disk := disk s; signals := signals s;
       calls := calls s ++ [mpy_AudioFileClip path] |} ->
  wp (try_except (a <- AudioFileClip w path ;; ret (Some a))
                 (fun _ => ret None)) s Q.
Proof.
  intros H. unfold AudioFileClip, audio_or_none in *.
  repeat wp_step. simpl.
  destruct (extract_audio w path); by repeat wp_step.
Qed.

Lemma wp_VideoWriter path fps width height s Q :
  (forall e, fault w (cv2_VideoWriter path fps width height) = Some e ->
     Q (Raise e)
       {| disk := disk s; signals := signals s;
          calls := calls s ++ [cv2_VideoWriter path fps width height] |}) ->
  (fault w (cv2_VideoWriter path fps width height) = None ->
     Q (Ok {| out_path := path; out_opened := writer_opens w path |})
       {| disk := opened_on w path (disk s); signals := signals s;
          calls := calls s ++ [cv2_VideoWriter path fps width height] |}) ->
  wp (VideoWriter w path fps width height) s Q.
Proof.
  intros Hraise Hok. unfold VideoWriter. wp_step. apply wp_invoke; [done|].
  intros Hf. specialize (Hok Hf). unfold opened_on in Hok.
  destruct (writer_opens w path); by repeat wp_step.
Qed.

Lemma wp_VideoFileClip path s Q :
  (forall e, fault w (mpy_VideoFileClip path) = Some e ->
     Q (Raise e)
       {| disk := disk s; signals := signals s;
          calls := calls s ++ [mpy_VideoFileClip path] |}) ->
  (fault w (mpy_VideoFileClip path) = None ->
     disk s !! path = None ->
     Q (Raise (clip_not_found path))
       {| disk := disk s; signals := signals s;
          calls := calls s ++ [mpy_VideoFileClip path] |}) ->
  (forall m, fault w (mpy_VideoFileClip path) = None ->
     disk s !! path = Some m ->
     Q (Ok m)
       {| disk := disk s; signals := signals s;
          calls := calls s ++ [mpy_VideoFileClip path] |}) ->
  wp (VideoFileClip w path) s Q.
Proof.
  intros Hraise Hmiss Hok. unfold VideoFileClip. wp_step.
  apply wp_invoke; [done|]. intros Hf. wp_step. wp_step. simpl.
  destruct (disk s !! path) as [m|] eqn:Hm; wp_step; auto.
Qed.

Lemma wp_write_videofile_to path clip ac s Q :
  (forall e, fault w (write_videofile path clip ac) = Some e ->
     Q (Raise e)
       {| disk := leftover_on w path (disk s); signals := signals s;
          calls := calls s ++ [write_videofile path clip ac] |}) ->
  (fault w (write_videofile path clip ac) = None ->
     Q (Ok tt)
       {| disk := <[path := clip]> (disk s); signals := signals s;
          calls := calls s ++ [write_videofile path clip ac] |}) ->
  wp (write_videofile_to w path clip ac) s Q.
Proof.
  intros Hraise Hok. unfold write_videofile_to. repeat wp_step. simpl.
  destruct (fault w (write_videofile path clip ac)) as [e|] eqn:Hf;
    repeat wp_step; auto.
Qed.

Lemma wp_remove path s Q :
  (forall e, fault w (os_remove path) = Some e ->
     Q (Raise e)
       {| disk := disk s; signals := signals s;
          calls := calls s ++ [os_remove path] |}) ->
  (fault w (os_remove path) = None ->
     disk s !! path = None ->
     Q (Raise (no_such_file path))
       {| disk := disk s; signals := signals s;
          calls := calls s ++ [os_remove path] |}) ->
  (fault w (os_remove path) = None ->
     is_Some (disk s !! path) ->
     Q (Ok tt)
       {| disk := delete path (disk s); signals := signals s;
          calls := calls s ++ [os_remove path] |}) ->
  wp (remove w path) s Q.
Proof.
  intros Hraise Hmiss Hok. unfold remove. wp_step.
  apply wp_invoke; [done|]. intros Hf. wp_step. wp_step. simpl.
  destruct (disk s !! path) as [m|] eqn:Hm; wp_step; auto.
Qed.

End WorkerFacts.

(** Symbolic execution of [run_body], one library call at a time. *)
Ltac wp_call :=
  lazymatch goal with
  | |- wp (bind _ _) _ _ => apply wp_bind
  | |- wp (ConverterThread.invoke _ _) _ _ =>
      apply wp_invoke; [intros ? ? | intros ?]
  | |- wp (ConverterThread.VideoCapture _ _) _ _ => apply wp_VideoCapture
  | |- wp (try_except (bind (ConverterThread.AudioFileClip _ _) _) _) _ _ =>
      apply wp_try_AudioFileClip
  | |- wp (ConverterThread.VideoWriter _ _ _ _ _) _ _ =>
      apply wp_VideoWriter; [intros ? ? | intros ?]
  | |- wp (ConverterThread.VideoFileClip _ _) _ _ =>
      apply wp_VideoFileClip; [intros ? ? | intros ? ? | intros ? ? ?]
  | |- wp (ConverterThread.write_videofile_to _ _ _ _) _ _ =>
      apply wp_write_videofile_to; [intros ? ? | intros ?]
  | |- wp (ConverterThread.remove _ _) _ _ =>
      apply wp_remove; [intros ? ? | intros ? ? | intros ? ?]
  | |- wp (ConverterThread.frame_loop _ _ _ _ _) _ _ =>
      apply wp_frame_loop; intros ? ? []; intros
  | |- wp (ConverterThread.write _ _ _ _) _ _ =>
      apply wp_write; [intros ? ? | intros ?]
  | |- wp (lift _) _ _ => apply wp_lift
  | |- wp (ret _) _ _ => apply wp_ret
  | |- wp (raise _) _ _ => apply wp_raise
  | |- wp (emit _) _ _ => apply wp_emit
  | |- wp (try_except _ _) _ _ => apply wp_try_except
  | |- wp (match ?x with Some _ => _ | None => _ end) _ _ => destruct x eqn:?
  | |- match ?r with Ok _ => _ | Raise _ => _ end => destruct r as [?|?]
  end; cbn beta iota delta [disk signals calls] in *.



Section RunFacts.
Import ConverterThread.

Variable w : World.
Variable os_path : OsPath.flavour.

Lemma progress_values_nil n : progress_values n [].
Proof. by intros i q. Qed.

(** The signals of the [try] block: the percentages of the frame pass,
    one for each frame at most, then the closing pair when nothing was
    raised. *)
Lemma run_body_signals i o s :
  wp (run_body w os_path i o) s
     (fun r s' =>
        exists qs,
          progress_values
            (from_option CAP_PROP_FRAME_COUNT 0 (opened w (disk s) i)) qs /\
          (length qs <=
             length (from_option cap_frames [] (opened w (disk s) i)))%nat /\
          (r = Ok tt ->
           length qs =
             length (from_option cap_frames [] (opened w (disk s) i))) /\
          signals s' = signals s ++ map percent qs ++ closing o r).
Proof.
  unfold run_body. repeat wp_call.
  all: try match goal with
       | Hs : signals ?s' = signals _ ++ map _ ?qs |- context [signals ?s'] =>
           exists qs; rewrite Hs; clear Hs
       end.
  all: try (exists []).
  all: split;
    [ first [ apply progress_values_nil
            | intros j q Hj; simpl;
              match goal with
              | H : forall _ _, _ !! _ = Some _ -> _ |- _ =>
                  rewrite <- (H j q Hj); f_equal; lia
              end ]
    | ].
  all: split; [simpl; lia|].
  all: split; [| simpl; rewrite <- ?app_assoc, ?app_nil_r; done ].
  all: try discriminate.
  all: intros _; simpl;
    match goal with
    | Hlen : Ok ?a = Ok () -> length ?qs = length ?fs |- _ =>
        destruct a; by specialize (Hlen eq_refl)
    end.
Qed.

Lemma run_unfold i o s :
  run w os_path i o s =
  match run_body w os_path i o s with
  | (Ok a, s') => (Ok a, s')
  | (Raise e, s') =>
      (Ok tt, {| disk := disk s'; calls := calls s';
                 signals := signals s' ++ [conversion_finished false (exn_str e)] |})
  end.
Proof. unfold run, try_except. by destruct (run_body w os_path i o s) as [[a|e] s']. Qed.

Lemma progress_of_zero j :
  progress_of j 0 = Raise (Exn "ZeroDivisionError" "division by zero").
Proof. reflexivity. Qed.

(** C3.  Whatever the files and the libraries do, [run] returns normally:
    an exception raised anywhere in the [try] block never leaves it.  The
    signals of a run are zero or more [progress_updated] followed by
    exactly one [conversion_finished], which carries the output path on
    success and [str(e)] of the exception raised otherwise. *)
Theorem run_catches_everything_and_finishes_once i o s :
  exists s' ps ok msg,
    run w os_path i o s = (Ok tt, s') /\
    signals s' =
      signals s ++ map progress_updated ps ++ [conversion_finished ok msg] /\
    match (run_body w os_path i o s).1 with
    | Ok _ => ok = true /\ msg = o
    | Raise e => ok = false /\ msg = exn_str e
    end.
Proof.
  pose proof (run_body_signals i o s) as Hb. unfold wp in Hb.
  rewrite run_unfold.
  destruct (run_body w os_path i o s) as [[[]|e] s1]; simpl in *;
    destruct Hb as (qs & _ & _ & _ & Hs).
  - exists s1, (map (fun q => Z.min q 95) qs ++ [100]), true, o.
    split; [done|]. split; [|done].
    rewrite Hs, map_app, map_map, <- !app_assoc. done.
  - eexists _, (map (fun q => Z.min q 95) qs), false, (exn_str e).
    split; [done|]. split; [|done]. simpl.
    rewrite Hs, map_map, app_nil_r, <- !app_assoc. done.
Qed.

(** C2.  When the input cannot be opened as a video source - the path
    names no file, or the decoder cannot read the file - the job ends at
    once: the [try] block raises the [ValueError] of line 44, whose text
    points at missing codecs, and the only signal is the failure that
    carries this text; no progress is emitted, no other library call is
    made and the disk is left as it was. *)
Theorem unopenable_input_fails_without_progress i o d :
  d !! i = None \/ decode w i = None ->
  raised w os_path i o d =
    Some (Exn "ValueError"
      "Could not open video file. Make sure Windows Media Player codecs are installed.") /\
  signals (final w os_path i o d) =
    [conversion_finished false
      "Could not open video file. Make sure Windows Media Player codecs are installed."] /\
  calls (final w os_path i o d) = [cv2_VideoCapture i] /\
  disk (final w os_path i o d) = d.
Proof.
  intros Hno.
  assert (Hop : opened w d i = None).
  { unfold opened. destruct Hno as [-> | ->]; [done|]. by destruct (d !! i). }
  unfold raised, final. rewrite run_unfold.
  unfold run_body, bind, VideoCapture, log, get_disk, ret, fresh. simpl.
  fold (opened w d i). rewrite Hop. done.
Qed.

Lemma final_unfold i o d :
  final w os_path i o d =
  match run_body w os_path i o (fresh d) with
  | (Ok _, s') => s'
  | (Raise e, s') =>
      {| disk := disk s'; calls := calls s';
         signals := signals s' ++ [conversion_finished false (exn_str e)] |}
  end.
Proof.
  unfold final. rewrite run_unfold.
  by destruct (run_body w os_path i o (fresh d)) as [[a|e] s'].
Qed.



End RunFacts.

Section SuccessFacts.
Import ConverterThread.

Variable w : World.
Variable os_path : OsPath.flavour.

Lemma temp_output_ne o : temp_output os_path o <> o.
Proof.
  unfold temp_output. intros Heq.
  destruct (StrFacts.splitext_spec os_path o) as [Happ Hext].
  rewrite <- Happ in Heq at 2. apply (inj _) in Heq.
  destruct Hext as [Hnil | [rest Hdot]]; rewrite <- Heq in *; done.
Qed.

(** A [try] block that ends without an exception has opened the input,
    re-read the temporary file, muxed it to the output path and then
    removed the temporary file. *)
Lemma run_body_success i o s :
  wp (run_body w os_path i o) s
     (fun r s' =>
        r = Ok tt ->
        exists cap m pre mid,
          let temp := temp_output os_path o in
          let d2 := after_frame_pass w temp (cap_frames cap) (disk s) in
          let clip := final_clip (audio_or_none w i) m in
          let ac := audio_codec (audio_or_none w i) in
          opened w (disk s) i = Some cap /\
          d2 !! temp = Some m /\
          disk s' = delete temp (<[o := clip]> d2) /\
          calls s' =
            calls s ++ pre ++ [write_videofile o clip ac] ++ mid
            ++ [os_remove temp]).
Proof.
  unfold run_body. repeat wp_call; try discriminate.
  all: intros _.
  all: match goal with
       | Hlen : Ok ?a = Ok () -> length ?qs = length ?fs |- _ =>
           destruct a; specialize (Hlen eq_refl)
       end.
  all: match goal with
       | Hd : disk ?s' = appended _ (map _ (take ?nd ?fs)) _ |- _ =>
           rewrite (take_ge fs nd) in Hd by lia
       end.
  all: match goal with
       | c : Capture, m : media |- _ => exists c, m
       end.
  all: repeat match goal with
       | Hc : calls ?s' = _ |- context [calls ?s'] => rewrite Hc; clear Hc
       end.
  all: unfold after_frame_pass.
  all: repeat match goal with
       | Hd : disk ?s' = _ |- _ => rewrite Hd in *; clear Hd
       end.
  all: unfold final_clip, audio_codec.
  all: simpl.
  - eexists (_ :: _ :: _ :: cs ++ [_; _; _; _]), [_; _].
    repeat split; try done.
    repeat first [rewrite <- app_assoc | progress simpl]. reflexivity.
  - eexists (_ :: _ :: _ :: cs ++ [_; _; _]), [_].
    repeat split; try done.
    repeat first [rewrite <- app_assoc | progress simpl]. reflexivity.
Qed.

Lemma leftover_on_is_Some o d p :
  is_Some (d !! p) -> is_Some (leftover_on w o d !! p).
Proof.
  unfold leftover_on. destruct (mux_leftover w) as [m|]; [|done].
  intros Hp. destruct (decide (o = p)) as [->|Hne].
  - rewrite lookup_insert_eq. eauto.
  - by rewrite lookup_insert_ne.
Qed.

Lemma loop_call_not_mux cs o clip ac :
  Forall loop_call cs -> ~ In (write_videofile o clip ac) cs.
Proof.
  intros Hall Hin. apply list_elem_of_In in Hin.
  by apply (proj1 (Forall_forall _ _) Hall) in Hin.
Qed.

(** A mux call that the world makes raise ends the [try] block, with the
    temporary file still on disk. *)
Lemma run_body_mux_raises i o d :
  wp (run_body w os_path i o) (fresh d)
     (fun r s' =>
        forall clip ac e,
          In (write_videofile o clip ac) (calls s') ->
          fault w (write_videofile o clip ac) = Some e ->
          r = Raise e /\ is_Some (disk s' !! temp_output os_path o)).
Proof.
  unfold run_body, fresh. repeat wp_call.
  all: intros clip ac e' Hin Hf.
  all: repeat match goal with
       | Hc : calls ?s' = _ |- _ => rewrite Hc in Hin; clear Hc
       end.
  all: rewrite ?in_app_iff in Hin; simpl in Hin.
  all: destruct_or?; try done.
  all: try match goal with
       | Hall : Forall loop_call ?cs, Hi : In _ ?cs |- _ =>
           by apply (loop_call_not_mux _ _ _ _ Hall) in Hi
       end.
  all: simplify_eq.
  all: split; [done|]. all: apply leftover_on_is_Some; eauto.
Qed.

(** A job that succeeds ends with the mux call and, later, the removal
    of the temporary file; the output file then holds the muxed clip. *)
Lemma final_success i o d :
  raised w os_path i o d = None ->
  exists clip ac pre mid,
    calls (final w os_path i o d) =
      pre ++ [write_videofile o clip ac] ++ mid
      ++ [os_remove (temp_output os_path o)] /\
    disk (final w os_path i o d) !! temp_output os_path o = None /\
    disk (final w os_path i o d) !! o = Some clip.
Proof.
  pose proof (run_body_success i o (fresh d)) as Hok.
  unfold wp in Hok. unfold raised. rewrite final_unfold.
  destruct (run_body w os_path i o (fresh d)) as [[[]|e] s1]; simpl in *;
    [|done].
  intros _. destruct (Hok eq_refl) as (cap & m & pre & mid & _ & _ & Hd & Hc).
  exists (final_clip (audio_or_none w i) m),
         (audio_codec (audio_or_none w i)), pre, mid.
  split; [done|]. rewrite Hd. split.
  - apply lookup_delete_eq.
  - rewrite lookup_delete_ne by apply temp_output_ne.
    apply lookup_insert_eq.
Qed.

Lemma final_mux_raises i o d clip ac e :
  In (write_videofile o clip ac) (calls (final w os_path i o d)) ->
  fault w (write_videofile o clip ac) = Some e ->
  raised w os_path i o d = Some e /\
  is_Some (disk (final w os_path i o d) !! temp_output os_path o).
Proof.
  pose proof (run_body_mux_raises i o d) as Hmux.
  unfold wp in Hmux. unfold raised. rewrite final_unfold.
  destruct (run_body w os_path i o (fresh d)) as [[[]|e'] s1]; simpl in *;
    intros Hin Hf; destruct (Hmux clip ac e Hin Hf) as [Hr Ht];
    [done|]. by injection Hr as ->.
Qed.

(** C6.  The temporary file is the stem of the output path followed by
    [_temp.mp4].  A job that succeeds removes it, and does so after the
    mux call that wrote the output: at the end the temporary file is gone
    and the output file holds the muxed clip.  A job whose mux call
    raises fails with that exception and leaves the temporary file on
    disk. *)
Theorem temp_file_removed_only_on_success i o d :
  let temp := temp_output os_path o in
  let s' := final w os_path i o d in
  temp = (OsPath.splitext os_path o).1 +:+ "_temp.mp4" /\
  (raised w os_path i o d = None ->
   exists clip ac pre mid,
     calls s' = pre ++ [write_videofile o clip ac] ++ mid ++ [os_remove temp] /\
     disk s' !! temp = None /\
     disk s' !! o = Some clip) /\
  (forall clip ac e,
     In (write_videofile o clip ac) (calls s') ->
     fault w (write_videofile o clip ac) = Some e ->
     raised w os_path i o d = Some e /\ is_Some (disk s' !! temp)).
Proof.
  intros temp s'. split; [done|]. split.
  - apply final_success.
  - apply final_mux_raises.
Qed.

Lemma after_frame_pass_temp temp frames d :
  writer_opens w temp = true ->
  after_frame_pass w temp frames d !! temp =
    Some {| video := map cvtColor_BGR2RGB frames; audio := None |}.
Proof.
  intros Hopen. unfold after_frame_pass, appended, opened_on. simpl.
  rewrite Hopen. rewrite lookup_alter, decide_True by done.
  by rewrite lookup_insert_eq.
Qed.

(** When everything but the audio extraction works, the [try] block ends
    without an exception. *)
Lemma healthy_run_body i o d cap :
  healthy w os_path i o d cap ->
  wp (run_body w os_path i o) (fresh d) (fun r _ => r = Ok tt).
Proof.
  intros (Hop & Hnf & Hopen & Hprog).
  unfold run_body, fresh. wp_call. wp_call. rewrite Hop. repeat wp_call.
  all: try match goal with
       | Hf : fault w ?c = Some _ |- _ => by rewrite Hnf in Hf
       end.
  all: try match goal with a : unit |- _ => by destruct a end.
  - (* the temporary file would be missing *)
    match goal with
    | Hd : disk ?s' = appended _ _ _, Hm : disk ?s' !! _ = None |- _ =>
        rewrite Hd in Hm; unfold appended, opened_on in Hm; simpl in Hm;
        rewrite Hopen in Hm;
        rewrite lookup_alter, decide_True, lookup_insert_eq in Hm by done
    end.
    done.
  - match goal with
    | Hm : <[_:=_]> _ !! _ = None, Hs : _ !! _ = Some _ |- _ =>
        rewrite lookup_insert_ne in Hm by (apply not_eq_sym, temp_output_ne);
        congruence
    end.
  - match goal with
    | Hm : <[_:=_]> _ !! _ = None, Hs : _ !! _ = Some _ |- _ =>
        rewrite lookup_insert_ne in Hm by (apply not_eq_sym, temp_output_ne);
        congruence
    end.
  - (* the frame loop would have raised *)
    match goal with
    | Herr : forall e', Raise ?e = Raise e' -> _ |- _ =>
        destruct (Herr e eq_refl) as [(c & _ & Hc)|(Hnw & _ & Hp)]
    end.
    + by rewrite Hnf in Hc.
    + destruct (Hprog (0 + Z.of_nat nw)) as [q Hq]; [lia|]. congruence.
Qed.

(** The whole of a job in which everything but the audio extraction
    works. *)
Lemma healthy_final i o d cap :
  healthy w os_path i o d cap ->
  let temp := temp_output os_path o in
  let clip := {| video := map cvtColor_BGR2RGB (cap_frames cap);
                 audio := audio_or_none w i |} in
  let s' := final w os_path i o d in
  raised w os_path i o d = None /\
  (exists qs,
     progress_values (CAP_PROP_FRAME_COUNT cap) qs /\
     length qs = length (cap_frames cap) /\
     signals s' =
       map percent qs ++ [progress_updated 100; conversion_finished true o]) /\
  In (write_videofile o clip (audio_codec (audio_or_none w i))) (calls s') /\
  disk s' = delete temp (<[o := clip]> (after_frame_pass w temp (cap_frames cap) d)).
Proof.
  intros Hh temp clip s'. subst s'.
  pose proof (healthy_run_body i o d cap Hh) as Hok.
  pose proof (run_body_success i o (fresh d)) as Hsucc.
  pose proof (run_body_signals w os_path i o (fresh d)) as Hsig.
  destruct Hh as (Hop & Hnf & Hopen & Hprog).
  unfold wp in Hok, Hsucc, Hsig. unfold raised. rewrite (final_unfold w os_path).
  destruct (run_body w os_path i o (fresh d)) as [r s1]. simpl in *. subst r.
  split; [done|].
  destruct Hsig as (qs & Hqs & _ & Hlen & Hs). rewrite Hop in *. simpl in *.
  destruct (Hsucc eq_refl) as (cap' & m & pre & mid & [= <-] & Hm & Hd & Hc).
  rewrite after_frame_pass_temp in Hm by done. injection Hm as <-.
  assert (Hclip : final_clip (audio_or_none w i)
                    {| video := map cvtColor_BGR2RGB (cap_frames cap);
                       audio := None |} = clip).
  { subst clip. unfold final_clip. by destruct (audio_or_none w i). }
  rewrite Hclip in *. split; [|split].
  - exists qs. auto.
  - rewrite Hc. rewrite !in_app_iff. simpl. auto.
  - done.
Qed.

(** C4.  When the audio extraction raises, for whatever reason, and
    everything else works, the job does not fail: the exception is
    dropped, the clip is muxed without a sound track and without an audio
    codec, the job succeeds, the only [conversion_finished] signal is the
    success, and the output file holds the converted frames and no
    audio. *)
Theorem audio_failure_gives_silent_output i o d cap e :
  extract_audio w i = Raise e ->
  healthy w os_path i o d cap ->
  let silent := {| video := map cvtColor_BGR2RGB (cap_frames cap);
                   audio := None |} in
  let s' := final w os_path i o d in
  raised w os_path i o d = None /\
  (exists ps,
     signals s' =
       map progress_updated ps
       ++ [progress_updated 100; conversion_finished true o]) /\
  In (write_videofile o silent None) (calls s') /\
  disk s' !! o = Some silent.
Proof.
  intros Haudio Hh silent s'.
  destruct (healthy_final i o d cap Hh) as (Hr & (qs & _ & _ & Hs) & Hin & Hd).
  unfold audio_or_none in Hin, Hd. rewrite Haudio in Hin, Hd. simpl in Hin.
  split; [done|]. split; [|split].
  - exists (map (fun q => Z.min q 95) qs). subst s'. rewrite Hs.
    by rewrite map_map.
  - done.
  - subst s'. rewrite Hd.
    rewrite lookup_delete_ne by apply temp_output_ne.
    apply lookup_insert_eq.
Qed.

(** C10.  Line 74 divides by the frame count of the container.  When that
    count is 0 and a frame is decoded, the first division raises
    [ZeroDivisionError]: the job fails with the message
    [division by zero], after one frame was written and before any
    progress was emitted.  When no frame is decoded the loop is left
    before any division: no progress is emitted for a frame, and the job
    carries on - it succeeds when no library call raises and the temporary
    file could be created. *)
Theorem zero_frame_count_metadata i o d cap :
  opened w d i = Some cap ->
  CAP_PROP_FRAME_COUNT cap = 0 ->
  let s' := final w os_path i o d in
  (forall f rest,
     cap_frames cap = f :: rest ->
     no_faults w ->
     raised w os_path i o d =
       Some (Exn "ZeroDivisionError" "division by zero") /\
     signals s' = [conversion_finished false "division by zero"] /\
     written (calls s') = [cvtColor_BGR2RGB f]) /\
  (cap_frames cap = [] ->
   (signals s' = [progress_updated 100; conversion_finished true o] \/
    exists e, raised w os_path i o d = Some e /\
              signals s' = [conversion_finished false (exn_str e)]) /\
   (no_faults w ->
    writer_opens w (temp_output os_path o) = true ->
    signals s' = [progress_updated 100; conversion_finished true o])).
Proof.
  intros Hop Hzero s'. subst s'. split.
  - intros f rest Hframes Hnf.
    assert (Hwp : wp (run_body w os_path i o) (fresh d)
              (fun r s1 =>
                 r = Raise (Exn "ZeroDivisionError" "division by zero") /\
                 signals s1 = [] /\
                 written (calls s1) = [cvtColor_BGR2RGB f])).
    { unfold run_body, fresh. wp_call. wp_call. rewrite Hop.
      do 4 wp_call.
      { match goal with Hf : fault w _ = Some _ |- _ => by rewrite Hnf in Hf end. }
      wp_call. rewrite Hframes, Hzero. simpl frame_loop.
      repeat (wp_call; rewrite ?progress_of_zero).
      all: try match goal with
           | Hf : fault w ?c = Some _ |- _ => by rewrite Hnf in Hf
           end.
      simpl. done. }
    unfold wp in Hwp. unfold raised. rewrite (final_unfold w os_path).
    destruct (run_body w os_path i o (fresh d)) as [r s1]. simpl in *.
    destruct Hwp as (-> & Hs & Hw). simpl. rewrite Hs. done.
  - intros Hframes. split.
    + pose proof (run_body_signals w os_path i o (fresh d)) as Hsig. unfold wp in Hsig.
      unfold raised. rewrite (final_unfold w os_path).
      destruct (run_body w os_path i o (fresh d)) as [[[]|e] s1]; simpl in *;
        destruct Hsig as (qs & _ & Hle & _ & Hs);
        rewrite Hop in Hle; simpl in Hle; rewrite Hframes in Hle;
        destruct qs; simpl in *; try lia; rewrite Hs.
      * by left.
      * right. by exists e.
    + intros Hnf Hopen.
      assert (Hh : healthy w os_path i o d cap).
      { repeat split; try done. intros k Hk. rewrite Hframes in Hk.
        simpl in Hk. lia. }
      destruct (healthy_final i o d cap Hh) as (_ & (qs & _ & Hlen & Hs) & _).
      rewrite Hframes in Hlen. destruct qs; [|done]. by rewrite Hs.
Qed.

End SuccessFacts.

(** ** The shell *)

Section ShellFacts.
Import MediaConverterApp.



Lemma output_format_of_item label :
  In label format_items ->
  exists word rest ext,
    PyStr.split label = word :: rest /\
    ext = PyStr.lower word /\
    output_format label = Ok ext /\
    In ext ["mp4"; "mov"; "avi"; "mkv"].
Proof.
  unfold format_items. simpl. intros Hin.
  destruct_or?; subst; try done; eexists _, _, _;
    (split; [reflexivity|]); (split; [reflexivity|]);
    (split; [reflexivity|]); simpl; auto.
Qed.

(** C7.  When a job is started - the input is selected and exists - the
    output path handed to the worker is the input path with its
    extension, in the sense of [os.path.splitext], replaced: the stem
    stays, and a dot and the container's extension follow.  That
    extension is the first word of the selected entry of the format box
    in lower case, hence one of [mp4], [mov], [avi], [mkv]: the text after
    the first word, such as [(Recommended)], is dropped. *)
Theorem output_path_replaces_extension os_path d sh label :
  In label format_items ->
  format_combo sh = label ->
  input_file sh <> "" ->
  is_Some (d !! input_file sh) ->
  let stem := (OsPath.splitext os_path (input_file sh)).1 in
  let old_ext := (OsPath.splitext os_path (input_file sh)).2 in
  exists word rest ext sh',
    PyStr.split label = word :: rest /\
    ext = PyStr.lower word /\
    In ext ["mp4"; "mov"; "avi"; "mkv"] /\
    input_file sh = stem +:+ old_ext /\
    start_conversion os_path d sh = Ok sh' /\
    threads_started sh' =
      threads_started sh ++ [(input_file sh, stem +:+ "." +:+ ext)].
Proof.
  intros Hin Hlabel Hne Hex stem old_ext.
  destruct (output_format_of_item label Hin)
    as (word & rest & ext & Hsplit & Hext & Hfmt & Hin').
  unfold start_conversion.
  assert (String.eqb (input_file sh) "" = false) as -> by by apply String.eqb_neq.
  rewrite bool_decide_eq_true_2 by done. simpl.
  rewrite Hlabel, Hfmt.
  eexists word, rest, ext, _. repeat split; try done.
  symmetry. apply StrFacts.splitext_app.
Qed.

Lemma output_file_same_iff os_path i fmt :
  output_file os_path i fmt = i <->
  (OsPath.splitext os_path i).2 = "." +:+ fmt.
Proof.
  unfold output_file.
  pose proof (StrFacts.splitext_app os_path i) as Happ. split.
  - intros Heq. rewrite <- Happ in Heq at 2. by apply (inj _) in Heq.
  - intros Hext. by rewrite <- Hext.
Qed.

End ShellFacts.

Section OverwriteFacts.
Import MediaConverterApp ConverterThread.

(** C9, as the code has it.  The derived output path is the input path
    exactly when the extension of the input, as it is written, is the dot
    followed by the (lower-case) extension of the selected container.  A
    job started on such a pair that succeeds has muxed its clip to the
    input path: the original input file is replaced by the output.  When
    the two extensions agree only after lower-casing the input's, the two
    paths differ. *)
Theorem same_extension_overwrites_input os_path i fmt :
  let o := output_file os_path i fmt in
  (o = i <-> (OsPath.splitext os_path i).2 = "." +:+ fmt) /\
  forall w d,
    o = i ->
    raised w os_path i o d = None ->
    exists clip ac,
      In (write_videofile i clip ac) (calls (final w os_path i o d)) /\
      disk (final w os_path i o d) !! i = Some clip.
Proof.
  intros o. split; [apply output_file_same_iff|].
  intros w d Ho Hr.
  destruct (final_success w os_path i o d Hr)
    as (clip & ac & pre & mid & Hc & _ & Hd).
  exists clip, ac. rewrite <- Ho at 1 3. split; [|done].
  rewrite Hc, !in_app_iff. simpl. auto.
Qed.

End OverwriteFacts.

(** ** The progress of a job *)

Section ProgressFacts.
Import ConverterThread.

Variable w : World.
Variable os_path : OsPath.flavour.

(** The signals of a job that succeeds: one percentage for each frame,
    then 100 and the success. *)
Lemma success_signals i o d cap :
  opened w d i = Some cap ->
  raised w os_path i o d = None ->
  exists qs,
    progress_values (CAP_PROP_FRAME_COUNT cap) qs /\
    length qs = length (cap_frames cap) /\
    signals (final w os_path i o d) =
      map percent qs ++ [progress_updated 100; conversion_finished true o].
Proof.
  intros Hop. pose proof (run_body_signals w os_path i o (fresh d)) as Hsig.
  unfold wp in Hsig. unfold raised. rewrite final_unfold.
  destruct (run_body w os_path i o (fresh d)) as [[[]|e] s1]; simpl in *;
    [|done].
  intros _. destruct Hsig as (qs & Hqs & _ & Hlen & Hs).
  rewrite Hop in *. simpl in *. exists qs. auto.
Qed.

Lemma positive_count_computable cap :
  0 < CAP_PROP_FRAME_COUNT cap ->
  Z.of_nat (length (cap_frames cap)) < 2 ^ 63 ->
  progress_computable cap.
Proof.
  intros Hn Hlen k Hk. exists (percent_of k (CAP_PROP_FRAME_COUNT cap)).
  apply FloatFacts.progress_of_defined; lia.
Qed.


(** X1.  Unless the frame count is negative, the progress of a job
    that succeeds never decreases: one percentage between 0 and 95 for
    each frame, in non-decreasing order, then 100. *)
Theorem progress_non_decreasing_unless_frame_count_negative i o d cap :
  opened w d i = Some cap ->
  0 <= CAP_PROP_FRAME_COUNT cap ->
  raised w os_path i o d = None ->
  exists ps,
    signals (final w os_path i o d) =
      map progress_updated ps
      ++ [progress_updated 100; conversion_finished true o] /\
    length ps = length (cap_frames cap) /\
    (forall p, In p ps -> 0 <= p <= 95) /\
    (forall (j1 j2 : nat) p1 p2,
       (j1 <= j2)%nat -> ps !! j1 = Some p1 -> ps !! j2 = Some p2 ->
       p1 <= p2).
Proof.
  intros Hop Hn Hr.
  destruct (success_signals i o d cap Hop Hr) as (qs & Hqs & Hlen & Hs).
  assert (Hpos : forall (j : nat) q, qs !! j = Some q ->
                   0 < CAP_PROP_FRAME_COUNT cap).
  { intros j q Hj. apply Hqs in Hj.
    destruct (Z.eq_dec (CAP_PROP_FRAME_COUNT cap) 0) as [Hz|]; [|lia].
    by rewrite Hz, progress_of_zero in Hj. }
  exists (map (fun q => Z.min q 95) qs). split; [|split; [|split]].
  - rewrite Hs. unfold percent. by rewrite map_map.
  - by rewrite length_map.
  - intros p Hin. apply in_map_iff in Hin as (q & <- & Hin).
    apply list_elem_of_In, list_elem_of_lookup in Hin as [j Hj].
    pose proof (Hqs j q Hj) as Hq.
    destruct (FloatFacts.progress_of_mono (CAP_PROP_FRAME_COUNT cap)
                (Z.of_nat j + 1) (Z.of_nat j + 1) q q (Hpos j q Hj)
                ltac:(lia) ltac:(lia) Hq Hq).
    lia.
  - intros j1 j2 p1 p2 Hle H1 H2.
    rewrite list_lookup_fmap in H1, H2.
    destruct (qs !! j1) as [q1|] eqn:Hq1; [|done].
    destruct (qs !! j2) as [q2|] eqn:Hq2; [|done].
    simpl in H1, H2. injection H1 as <-. injection H2 as <-.
    destruct (FloatFacts.progress_of_mono (CAP_PROP_FRAME_COUNT cap)
                (Z.of_nat j1 + 1) (Z.of_nat j2 + 1) q1 q2 (Hpos j1 q1 Hq1)
                ltac:(lia) ltac:(lia) (Hqs j1 q1 Hq1) (Hqs j2 q2 Hq2)).
    lia.
Qed.

End ProgressFacts.

(** ** The properties at sample inputs *)

Section Samples.
Import MediaConverterApp ConverterThread Sample.

Lemma sample_healthy :
  healthy (silent_world 2 [picture; picture]) OsPath.posixpath
          "clip.wmv" "clip.mp4" folder (capture 2 [picture; picture]).
Proof.
  split; [reflexivity|]. split; [by intros c|]. split; [reflexivity|].
  intros k Hk. simpl in Hk.
  assert (Hk' : k = 1 \/ k = 2) by lia.
  destruct Hk' as [-> | ->]; eexists; vm_compute; reflexivity.
Defined.

(** A path that names no file. *)
Lemma unopenable_input_witness :
  let w := silent_world 2 [picture; picture] in
  (folder !! "gone.wmv" = None \/ decode w "gone.wmv" = None) /\
  signals (final w OsPath.posixpath "gone.wmv" "gone.mp4" folder) =
    [conversion_finished false
      "Could not open video file. Make sure Windows Media Player codecs are installed."].
Proof.
  intros w.
  assert (H : folder !! "gone.wmv" = None \/ decode w "gone.wmv" = None)
    by (left; reflexivity).
  split; [exact H|].
  exact (proj1 (proj2 (unopenable_input_fails_without_progress
                         w OsPath.posixpath "gone.wmv" "gone.mp4" folder H))).
Defined.

(** A file without a sound track: two frames, a frame count of 2. *)
Lemma audio_failure_witness :
  let w := silent_world 2 [picture; picture] in
  let s' := final w OsPath.posixpath "clip.wmv" "clip.mp4" folder in
  extract_audio w "clip.wmv" = Raise (Exn "KeyError" "'audio_fps'") /\
  raised w OsPath.posixpath "clip.wmv" "clip.mp4" folder = None /\
  disk s' !! "clip.mp4" =
    Some {| video := [[[Px 30 20 10; Px 255 0 0]]; [[Px 30 20 10; Px 255 0 0]]];
            audio := None |}.
Proof.
  intros w s'.
  assert (Ha : extract_audio w "clip.wmv" = Raise (Exn "KeyError" "'audio_fps'"))
    by reflexivity.
  split; [exact Ha|].
  destruct (audio_failure_gives_silent_output
              w OsPath.posixpath "clip.wmv" "clip.mp4" folder
              (capture 2 [picture; picture]) _ Ha sample_healthy)
    as (Hr & _ & _ & Hd).
  split; [exact Hr | exact Hd].
Defined.

(** A frame count of 0, with one frame and with none. *)
Lemma zero_frame_count_witness :
  signals (final (silent_world 0 [picture]) OsPath.posixpath
                 "clip.wmv" "clip.mp4" folder) =
    [conversion_finished false "division by zero"] /\
  signals (final (silent_world 0 []) OsPath.posixpath
                 "clip.wmv" "clip.mp4" folder) =
    [progress_updated 100; conversion_finished true "clip.mp4"].
Proof.
  split.
  - destruct (zero_frame_count_metadata
                (silent_world 0 [picture]) OsPath.posixpath
                "clip.wmv" "clip.mp4" folder (capture 0 [picture])
                eq_refl eq_refl) as [Hone _].
    destruct (Hone picture [] eq_refl (fun c => eq_refl)) as (_ & Hs & _).
    exact Hs.
  - destruct (zero_frame_count_metadata
                (silent_world 0 []) OsPath.posixpath
                "clip.wmv" "clip.mp4" folder (capture 0 [])
                eq_refl eq_refl) as [_ Hnone].
    destruct (Hnone eq_refl) as [_ Hs].
    exact (Hs (fun c => eq_refl) eq_refl).
Defined.

(** A job that succeeds, and one whose mux raises. *)
Lemma temp_file_witness :
  let ok := final (silent_world 2 [picture; picture]) OsPath.posixpath
                  "clip.wmv" "clip.mp4" folder in
  let ko := final (failing_mux_world 2 [picture; picture]) OsPath.posixpath
                  "clip.wmv" "clip.mp4" folder in
  temp_output OsPath.posixpath "clip.mp4" = "clip_temp.mp4" /\
  disk ok !! "clip_temp.mp4" = None /\
  is_Some (disk ko !! "clip_temp.mp4").
Proof.
  intros ok ko. split; [reflexivity|]. split.
  - destruct (temp_file_removed_only_on_success
                (silent_world 2 [picture; picture]) OsPath.posixpath
                "clip.wmv" "clip.mp4" folder) as (_ & Hok & _).
    destruct (Hok eq_refl) as (clip & ac & pre & mid & _ & Ht & _).
    exact Ht.
  - destruct (temp_file_removed_only_on_success
                (failing_mux_world 2 [picture; picture]) OsPath.posixpath
                "clip.wmv" "clip.mp4" folder) as (_ & _ & Hko).
    refine (proj2 (Hko {| video := map cvtColor_BGR2RGB [picture; picture];
                          audio := None |} None mux_error _ eq_refl)).
    vm_compute. tauto.
Defined.

(** The shell, on a selected file that exists. *)
Lemma output_path_witness :
  let sh := dropEvent ["clip.wmv"] idle in
  exists sh',
    start_conversion OsPath.posixpath folder sh = Ok sh' /\
    threads_started sh' = [("clip.wmv", "clip.mp4")].
Proof.
  intros sh.
  destruct (output_path_replaces_extension
              OsPath.posixpath folder sh "MP4 (Recommended)")
    as (word & rest & ext & sh' & Hsplit & Hext & _ & _ & Hstart & Hthreads).
  - left. reflexivity.
  - reflexivity.
  - discriminate.
  - exists {| video := []; audio := None |}. reflexivity.
  - exists sh'. split; [exact Hstart|].
    injection Hsplit as <- <-. subst ext. exact Hthreads.
Defined.


(** C9, as stated, fails on an upper-case extension: [clip.MP4] converted
    to [mp4] has the extension of the container once lower-cased, and the
    derived output path is [clip.mp4], not the input path. *)
Lemma upper_case_extension_is_not_overwritten :
  PyStr.lower (OsPath.splitext OsPath.posixpath "clip.MP4").2 = ".mp4" /\
  output_format "MP4 (Recommended)" = Ok "mp4" /\
  output_file OsPath.posixpath "clip.MP4" "mp4" = "clip.mp4" /\
  output_file OsPath.posixpath "clip.MP4" "mp4" <> "clip.MP4".
Proof. repeat split. discriminate. Qed.

(** A file converted to its own container. *)
Lemma same_extension_witness :
  let w := silent_world 2 [picture; picture] in
  let d : gmap string media := {[ "clip.mp4" := {| video := []; audio := None |} ]} in
  output_file OsPath.posixpath "clip.mp4" "mp4" = "clip.mp4" /\
  exists clip,
    disk (final w OsPath.posixpath "clip.mp4" "clip.mp4" d) !! "clip.mp4"
      = Some clip.
Proof.
  intros w d. split; [reflexivity|].
  destruct (same_extension_overwrites_input
              OsPath.posixpath "clip.mp4" "mp4") as [_ Hover].
  destruct (Hover w d eq_refl eq_refl) as (clip & ac & _ & Hd).
  exists clip. exact Hd.
Defined.

(** C1 at a frame count of -1.  The job succeeds, and its progress goes
    -100, -200, 100: the percentages of the frame pass decrease. *)
Lemma negative_frame_count_progress_decreases :
  let w := silent_world (-1) [picture; picture] in
  raised w OsPath.posixpath "clip.wmv" "clip.mp4" folder = None /\
  signals (final w OsPath.posixpath "clip.wmv" "clip.mp4" folder) =
    [progress_updated (-100); progress_updated (-200); progress_updated 100;
     conversion_finished true "clip.mp4"].
Proof. split; vm_compute; reflexivity. Qed.

(** Two frames and a frame count of 2: the progress is 50, 95, 100. *)
Lemma progress_witness :
  exists ps,
    signals (final (silent_world 2 [picture; picture]) OsPath.posixpath
                   "clip.wmv" "clip.mp4" folder) =
      map progress_updated ps
      ++ [progress_updated 100; conversion_finished true "clip.mp4"] /\
    length ps = 2%nat /\
    (forall p, In p ps -> 0 <= p <= 95) /\
    (forall (j1 j2 : nat) p1 p2,
       (j1 <= j2)%nat -> ps !! j1 = Some p1 -> ps !! j2 = Some p2 ->
       p1 <= p2).
Proof.
  apply (progress_non_decreasing_unless_frame_count_negative
           (silent_world 2 [picture; picture]) OsPath.posixpath
           "clip.wmv" "clip.mp4" folder (capture 2 [picture; picture]));
    [reflexivity | simpl; lia | reflexivity].
Defined.


End Samples.

(** ** The files and the library calls of a job *)

Section DiskFacts.
Import ConverterThread.

Variable w : World.
Variable os_path : OsPath.flavour.

Lemma lookup_appended_ne out ws d p :
  p <> out_path out -> appended out ws d !! p = d !! p.
Proof.
  intros Hne. unfold appended. destruct (out_opened out); [|done].
  by rewrite lookup_alter_ne.
Qed.

Lemma lookup_opened_on_ne path d p :
  p <> path -> opened_on w path d !! p = d !! p.
Proof.
  intros Hne. unfold opened_on. destruct (writer_opens w path); [|done].
  by rewrite lookup_insert_ne.
Qed.








End DiskFacts.

Section CallFacts.
Import ConverterThread.

Variable w : World.
Variable os_path : OsPath.flavour.

Lemma frame_loop_calls out n pending : forall k s,
  wp (frame_loop w out n pending k) s
     (fun r s' =>
        exists cs, calls s' = calls s ++ cs /\
                   cs `prefix_of` loop_calls k pending /\
                   (r = Ok tt -> cs = loop_calls k pending)).
Proof.
  induction pending as [|f pending IH]; intros k s; simpl frame_loop.
  - apply wp_invoke; intros; simpl; exists [cap_read k]; by repeat split.
  - wp_step. apply wp_invoke.
    { intros e He. simpl. exists [cap_read k]. repeat split; try done.
      by eexists. }
    intros _. wp_step. apply wp_invoke.
    { intros e He. simpl. exists [cap_read k; cv2_cvtColor k f].
      rewrite <- app_assoc. repeat split; try done. by eexists. }
    intros _. wp_step. apply wp_write.
    { intros e He. simpl.
      exists [cap_read k; cv2_cvtColor k f; out_write k (cvtColor_BGR2RGB f)].
      rewrite <- !app_assoc. repeat split; try done. by eexists. }
    intros _. wp_step. wp_step.
    destruct (progress_of (k + 1) n) as [q|e] eqn:Hq.
    2:{ simpl.
      exists [cap_read k; cv2_cvtColor k f; out_write k (cvtColor_BGR2RGB f)].
      rewrite <- !app_assoc. repeat split; try done. by eexists. }
    wp_step. wp_step. eapply wp_mono; [apply IH|]. simpl.
    intros r s' (cs & Hc & Hpre & Hok).
    exists ([cap_read k; cv2_cvtColor k f; out_write k (cvtColor_BGR2RGB f)]
            ++ cs).
    rewrite Hc, <- !app_assoc. simpl. repeat split; try done.
    + by do 3 apply prefix_cons.
    + intros Hr. by rewrite (Hok Hr).
Qed.

(** The frame loop, with its calls spelled out. *)
Lemma wp_frame_loop_calls out n pending k s Q :
  (forall r s',
     loop_post w out n pending k s r s' ->
     (exists cs, calls s' = calls s ++ cs /\
                 cs `prefix_of` loop_calls k pending /\
                 (r = Ok tt -> cs = loop_calls k pending)) ->
     Q r s') ->
  wp (frame_loop w out n pending k) s Q.
Proof.
  intros HQ. unfold wp. apply HQ.
  - apply (wp_frame_loop w out n pending k s). auto.
  - apply (frame_loop_calls out n pending k s).
Qed.

End CallFacts.

Ltac wp_call_exact :=
  lazymatch goal with
  | |- wp (ConverterThread.frame_loop _ _ _ _ _) _ _ =>
      apply wp_frame_loop_calls; intros ? ? [] (? & ? & ? & ?); intros;
      cbn beta iota delta [disk signals calls] in *
  | |- _ => wp_call
  end.

Section PipelineFacts.
Import ConverterThread.

Variable w : World.
Variable os_path : OsPath.flavour.

(** The calls of the [try] block are an initial part of the pipeline, and
    the whole of it when no exception ends the block. *)
Lemma run_body_calls i o s cap :
  opened w (disk s) i = Some cap ->
  wp (run_body w os_path i o) s
     (fun r s' =>
        exists m cs,
          calls s' = calls s ++ cs /\
          cs `prefix_of` pipeline os_path i o cap (audio_or_none w i) m /\
          (r = Ok tt ->
           cs = pipeline os_path i o cap (audio_or_none w i) m /\
           after_frame_pass w (temp_output os_path o) (cap_frames cap) (disk s)
             !! temp_output os_path o = Some m)).
Proof.
  intros Hop. unfold run_body. wp_call_exact. wp_call_exact. rewrite Hop.
  repeat wp_call_exact.
  all: repeat match goal with
       | H : Ok ?a = Ok () -> _ |- _ => destruct a; specialize (H eq_refl)
       end.
  all: try match goal with
       | Hd : disk ?s' = appended _ (map _ (take ?nd ?fs)) _ |- _ =>
           rewrite (take_ge fs nd) in Hd by lia
       end.
  all: repeat match goal with
       | Hd : disk ?s' = _ |- _ => rewrite Hd in *; clear Hd
       end.
  all: unfold pipeline.
  all: repeat match goal with
       | Hc : calls ?s' = _ |- context [calls ?s'] => rewrite Hc; clear Hc
       end.
  all: subst.
  all: rewrite <- ?app_assoc; simpl.
  all: first [ match goal with m : media |- _ => exists m end
             | exists {| video := []; audio := None |} ].
  all: eexists; (split; [reflexivity|]).
  all: (split; [| first [ discriminate
                        | intros _; split; [reflexivity | done] ] ]).
  all: destruct (audio_or_none w i); simpl.
  all: repeat first [ apply prefix_nil | apply prefix_cons | apply prefix_app
                    | by apply prefix_app_r | reflexivity ].
Qed.

(** X4.  The library calls of a job whose input opens are always an
    initial part of one fixed sequence - capture, audio clip, writer, a
    read, a conversion and a write for each frame, the last read, the two
    releases, the clip read back, the mux, the closes, the removal - and a
    job that succeeds has made all of them, in this order. *)
Theorem calls_follow_the_pipeline i o d cap :
  opened w d i = Some cap ->
  exists video_clip,
    let steps := pipeline os_path i o cap (audio_or_none w i) video_clip in
    calls (final w os_path i o d) `prefix_of` steps /\
    (raised w os_path i o d = None ->
     calls (final w os_path i o d) = steps /\
     after_frame_pass w (temp_output os_path o) (cap_frames cap) d
       !! temp_output os_path o = Some video_clip).
Proof.
  intros Hop.
  pose proof (run_body_calls i o (fresh d) cap Hop) as Hb. unfold wp in Hb.
  unfold raised. rewrite (final_unfold w os_path).
  destruct (run_body w os_path i o (fresh d)) as [[[]|e] s1]; simpl in *;
    destruct Hb as (m & cs & -> & Hpre & Hok); exists m; simpl.
  - destruct (Hok eq_refl) as [-> Hm]. by split.
  - by split.
Qed.

(** X5.  When the audio extraction succeeds and everything else works,
    the extracted clip is attached with [set_audio], the mux is called
    with the [aac] codec, the audio clip is closed, and the output file
    holds the converted frames with that sound track. *)
Theorem extracted_audio_is_muxed i o d cap a :
  extract_audio w i = Ok a ->
  healthy w os_path i o d cap ->
  let sound := {| video := map cvtColor_BGR2RGB (cap_frames cap);
                  audio := Some a |} in
  let s' := final w os_path i o d in
  raised w os_path i o d = None /\
  In set_audio (calls s') /\
  In (write_videofile o sound (Some "aac")) (calls s') /\
  In audio_clip_close (calls s') /\
  disk s' !! o = Some sound.
Proof.
  intros Haudio Hh sound s'. subst s'.
  destruct (healthy_final w os_path i o d cap Hh) as (Hr & _ & Hin & Hd).
  pose proof (run_body_calls i o (fresh d) cap (proj1 Hh)) as Hb.
  unfold wp in Hb. unfold raised in *. revert Hin Hd.
  rewrite (final_unfold w os_path).
  destruct (run_body w os_path i o (fresh d)) as [[[]|e] s1]; simpl in *;
    [|done].
  destruct Hb as (m & cs & -> & _ & Hok).
  destruct (Hok eq_refl) as [-> _].
  unfold audio_or_none. rewrite Haudio. simpl. intros Hin Hd.
  split; [done|]. split; [|split; [|split]].
  - unfold pipeline. rewrite !in_app_iff. simpl. tauto.
  - done.
  - unfold pipeline. rewrite !in_app_iff. simpl. tauto.
  - rewrite Hd. rewrite lookup_delete_ne by apply temp_output_ne.
    apply lookup_insert_eq.
Qed.

End PipelineFacts.

Section UnopenedWriterFacts.
Import ConverterThread.

Variable w : World.
Variable os_path : OsPath.flavour.



End UnopenedWriterFacts.

(** ** The progress at and past the frame count *)

Section PlateauFacts.
Import ConverterThread PyFloat.

Variable w : World.
Variable os_path : OsPath.flavour.

Lemma ilog2_diag n : 0 < n -> ilog2 n n = 0.
Proof.
  intros Hn. unfold ilog2. rewrite Z.sub_diag. unfold scale. simpl.
  rewrite Z.mul_1_r. destruct (Z.leb_spec n n); [done|lia].
Qed.

Lemma round_pos_diag n : 0 < n -> round_pos n n = Finite (2 ^ 52) (-52).
Proof.
  intros Hn. unfold round_pos. rewrite ilog2_diag by done.
  unfold prec, emin, emax. simpl Z.max. rewrite FloatFacts.scale_eq.
  simpl Z.max. rewrite Z.pow_0_r, Z.mul_1_r.
  rewrite (Z.mul_comm n), FloatFacts.nearest_even_exact by lia.
  done.
Qed.

(** Line 74 gives 100 when the frame number is the frame count. *)
Lemma progress_of_diag n : 0 < n -> progress_of n n = Ok 100.
Proof.
  intros Hn. unfold progress_of, truediv.
  destruct (Z.eqb_spec n 0); [lia|].
  rewrite FloatFacts.round_positive, round_pos_diag by done.
  vm_compute. reflexivity.
Qed.

(** X7.  In a job that succeeds on an input with a positive frame count,
    every frame from the one that reaches the frame count on is reported
    as 95: the progress of the frame pass stays there until the final
    100, however many more frames the input holds. *)
Theorem progress_stays_at_95_once_the_count_is_reached i o d cap :
  opened w d i = Some cap ->
  0 < CAP_PROP_FRAME_COUNT cap ->
  raised w os_path i o d = None ->
  exists ps,
    signals (final w os_path i o d) =
      map progress_updated ps
      ++ [progress_updated 100; conversion_finished true o] /\
    length ps = length (cap_frames cap) /\
    forall (j : nat) p,
      ps !! j = Some p -> CAP_PROP_FRAME_COUNT cap <= Z.of_nat j + 1 ->
      p = 95.
Proof.
  intros Hop Hn Hr.
  destruct (success_signals w os_path i o d cap Hop Hr)
    as (qs & Hqs & Hlen & Hs).
  exists (map (fun q => Z.min q 95) qs). split; [|split].
  - rewrite Hs. unfold percent. by rewrite map_map.
  - by rewrite length_map.
  - intros j p Hj Hle. rewrite list_lookup_fmap in Hj.
    destruct (qs !! j) as [q|] eqn:Hq; [|done].
    simpl in Hj. injection Hj as <-.
    destruct (FloatFacts.progress_of_mono (CAP_PROP_FRAME_COUNT cap)
                (CAP_PROP_FRAME_COUNT cap) (Z.of_nat j + 1) 100 q
                Hn Hn Hle (progress_of_diag _ Hn) (Hqs j q Hq)).
    lia.
Qed.

End PlateauFacts.

(** ** How far line 74 is from the exact percentage *)

Section AccuracyFacts.
Import PyFloat FloatFacts.

Lemma ilog2_bounds a b :
  Z.log2 a - Z.log2 b - 1 <= ilog2 a b <= Z.log2 a - Z.log2 b.
Proof.
  unfold ilog2. destruct (scale a b (Z.log2 a - Z.log2 b)) as [n m].
  destruct (m <=? n); lia.
Qed.

(** Above the subnormal range the scaled quotient has 53 bits. *)
Lemma scaled_lower a b :
  0 < a -> 0 < b -> emin < exponent_of a b ->
  b * 2 ^ Z.max 0 (exponent_of a b) * 2 ^ 52
  <= a * 2 ^ Z.max 0 (- exponent_of a b).
Proof.
  intros Ha Hb He. set (e := exponent_of a b) in *.
  destruct (ilog2_spec a b Ha Hb) as [Hlo _].
  assert (Hle : b * 2 ^ (52 + Z.max 0 e) <= a * 2 ^ Z.max 0 (- e)).
  { apply (shift_ge a b (Z.max 0 (- ilog2 a b)) (Z.max 0 (ilog2 a b)));
      try lia.
    subst e. unfold exponent_of, prec, emin in *. lia. }
  rewrite Z.pow_add_r in Hle by lia. lia.
Qed.

(** The two roundings of line 74, for a frame number and a frame count
    below [2^44]: the exponents are negative, and each mantissa is the
    nearest integer to the scaled value. *)
Lemma percent_of_steps k n :
  0 < k < 2 ^ 44 -> 0 < n < 2 ^ 44 ->
  exists m1 m2 P1 P2,
    percent_of k n = m2 / P2 /\
    0 < P2 /\ 512 <= P1 /\ 2 ^ 52 <= m1 <= 2 ^ 53 /\
    n * 2 ^ 52 <= k * P1 /\
    (2 * m1 - 1) * n <= 2 * (k * P1) <= (2 * m1 + 1) * n /\
    P1 * 2 ^ 52 <= 100 * m1 * P2 /\
    (2 * m2 - 1) * P1 <= 2 * (100 * m1 * P2) <= (2 * m2 + 1) * P1.
Proof.
  intros [Hk Hk44] [Hn Hn44].
  assert (Hlk : Z.log2 k <= 43) by (apply Z.log2_lt_pow2 in Hk44; lia).
  assert (Hln : Z.log2 n <= 43) by (apply Z.log2_lt_pow2 in Hn44; lia).
  pose proof (Z.log2_nonneg k). pose proof (Z.log2_nonneg n).
  pose proof (ilog2_bounds k n) as Hl1.
  assert (He1 : -96 <= exponent_of k n <= -9)
    by (unfold exponent_of, prec, emin; lia).
  pose proof (mantissa_upper k n Hk Hn) as [_ Hm1u].
  pose proof (mantissa_lower k n Hk Hn ltac:(unfold emin; lia)) as Hm1l.
  pose proof (scaled_lower k n Hk Hn ltac:(unfold emin; lia)) as Hs1.
  assert (Hn1 := nearest_even_spec (k * 2 ^ Z.max 0 (- exponent_of k n))
                   (n * 2 ^ Z.max 0 (exponent_of k n))).
  unfold percent_of. fold (mantissa_of k n) in Hn1.
  set (e1 := exponent_of k n) in *. set (m1 := mantissa_of k n) in *.
  rewrite (Z.max_l 0 e1) in * by lia. rewrite (Z.max_r 0 (- e1)) in * by lia.
  rewrite Z.pow_0_r, !Z.mul_1_r in *.
  set (P1 := 2 ^ (- e1)) in *.
  assert (HP1 : 512 <= P1).
  { subst P1. change 512 with (2 ^ 9). apply Z.pow_le_mono_r; lia. }
  destruct Hn1 as [Hn1 _]; [lia..|].
  destruct (Z.eqb_spec m1 0) as [|_]; [lia|].
  assert (Ha2 : 0 < m1 * 100) by lia.
  assert (Hla2 : 58 <= Z.log2 (m1 * 100) <= 59).
  { split.
    - apply Z.log2_le_pow2; [lia|]. nia.
    - assert (Z.log2 (m1 * 100) < 60); [|lia].
      apply Z.log2_lt_pow2; [lia|]. nia. }
  assert (Hlb2 : Z.log2 P1 = - e1) by (subst P1; apply Z.log2_pow2; lia).
  pose proof (ilog2_bounds (m1 * 100) P1) as Hl2.
  assert (He2 : -91 <= exponent_of (m1 * 100) P1 <= -2)
    by (unfold exponent_of, prec, emin; lia).
  assert (HP1pos : 0 < P1) by lia.
  pose proof (scaled_lower (m1 * 100) P1 Ha2 HP1pos ltac:(unfold emin; lia))
    as Hs2.
  assert (Hn2 := nearest_even_spec
                   (m1 * 100 * 2 ^ Z.max 0 (- exponent_of (m1 * 100) P1))
                   (P1 * 2 ^ Z.max 0 (exponent_of (m1 * 100) P1))).
  fold (mantissa_of (m1 * 100) P1) in Hn2.
  unfold floor_of.
  set (e2 := exponent_of (m1 * 100) P1) in *.
  set (m2 := mantissa_of (m1 * 100) P1) in *.
  rewrite (Z.max_l 0 e2) in * by lia. rewrite (Z.max_r 0 (- e2)) in * by lia.
  rewrite Z.pow_0_r, !Z.mul_1_r in *.
  set (P2 := 2 ^ (- e2)) in *.
  assert (HP2 : 0 < P2) by (subst P2; apply pow2_pos; lia).
  destruct Hn2 as [Hn2 _]; [nia|lia|].
  exists m1, m2, P1, P2. repeat split; try lia.
Qed.

(** Line 74 never gives more than the exact percentage, rounded down,
    and at most one less. *)
Lemma percent_of_bounds k n :
  0 < k < 2 ^ 44 -> 0 < n < 2 ^ 44 ->
  100 * k / n - 1 <= percent_of k n <= 100 * k / n.
Proof.
  intros Hk Hn.
  destruct (percent_of_steps k n Hk Hn)
    as (m1 & m2 & P1 & P2 & -> & HP2 & HP1 & Hm1 & Hs1 & Hn1 & Hs2 & Hn2).
  pose proof (Z.div_mod (100 * k) n ltac:(lia)) as Hdm.
  pose proof (Z.mod_pos_bound (100 * k) n ltac:(lia)) as Hr.
  set (F := 100 * k / n) in *. set (r := (100 * k) mod n) in *.
  assert (HF : 0 <= F) by (subst F; apply Z.div_pos; lia).
  (* the frame count is small against the two scales *)
  assert (Hn256 : 256 * n < P1).
  { assert (k * P1 < 2 ^ 44 * P1) by (apply Z.mul_lt_mono_pos_r; lia).
    change (2 ^ 44) with 17592186044416 in *.
    change (2 ^ 52) with 4503599627370496 in *. lia. }
  assert (HP12 : P1 <= 200 * P2).
  { assert (100 * m1 * P2 <= 100 * 2 ^ 53 * P2)
      by (apply Z.mul_le_mono_nonneg_r; lia).
    change (2 ^ 53) with 9007199254740992 in *.
    change (2 ^ 52) with 4503599627370496 in *. lia. }
  assert (HP1n : 0 < P1 * n) by (apply Z.mul_pos_pos; lia).
  assert (HP1P2 : 0 < P1 * P2) by (apply Z.mul_pos_pos; lia).
  split.
  - apply Z.div_le_lower_bound; [done|].
    (* m2 * P1 * n against (F - 1) * P2 * P1 * n *)
    assert (H1 : 2 * (100 * m1 * P2) * n <= (2 * m2 + 1) * P1 * n)
      by (apply Z.mul_le_mono_nonneg_r; lia).
    assert (H2 : 100 * P2 * (2 * (k * P1)) <= 100 * P2 * ((2 * m1 + 1) * n))
      by (apply Z.mul_le_mono_nonneg_l; lia).
    assert (H3 : 2 * P1 * P2 * (F * n) <= 2 * P1 * P2 * (100 * k))
      by (apply Z.mul_le_mono_nonneg_l; lia).
    assert (H4 : 100 * P2 * n + P1 * n <= 2 * (P1 * n) * P2).
    { assert (100 * (P2 * n) <= P1 * (P2 * n))
        by (apply Z.mul_le_mono_nonneg_r; [apply Z.mul_nonneg_nonneg|]; lia).
      assert (P1 * n * 1 <= P1 * n * P2)
        by (apply Z.mul_le_mono_nonneg_l; lia).
      lia. }
    assert (H5 : (P2 * (F - 1)) * (2 * (P1 * n)) <= m2 * (2 * (P1 * n))) by lia.
    apply Z.mul_le_mono_pos_r in H5; [done|lia].
  - assert (m2 / P2 < F + 1); [|lia].
    apply Z.div_lt_upper_bound; [done|].
    assert (H1 : (2 * m2 - 1) * P1 * n <= 2 * (100 * m1 * P2) * n)
      by (apply Z.mul_le_mono_nonneg_r; lia).
    assert (H2 : 100 * P2 * ((2 * m1 - 1) * n) <= 100 * P2 * (2 * (k * P1)))
      by (apply Z.mul_le_mono_nonneg_l; lia).
    assert (H3 : 2 * P1 * P2 * (100 * k) <= 2 * P1 * P2 * ((F + 1) * n - 1))
      by (apply Z.mul_le_mono_nonneg_l; lia).
    assert (H4 : P1 * n + 100 * n * P2 < 2 * P1 * P2).
    { assert (P1 * n < P1 * P2) by (apply Z.mul_lt_mono_pos_l; lia).
      assert (100 * n * P2 < P1 * P2) by (apply Z.mul_lt_mono_pos_r; lia).
      lia. }
    assert (H5 : m2 * (2 * (P1 * n)) < (P2 * (F + 1)) * (2 * (P1 * n))) by lia.
    apply Z.mul_lt_mono_pos_r in H5; [done|lia].
Qed.

(** X8.  For a frame number and a frame count below [2^44], line 74
    raises nothing, and the percentage it computes in floating point is
    the exact percentage [100 * frame_count / total_frames] rounded down,
    or one less: never more, and never further off. *)
Theorem progress_is_exact_or_one_less k n :
  0 < k < 2 ^ 44 -> 0 < n < 2 ^ 44 ->
  exists q,
    progress_of k n = Ok q /\
    100 * k / n - 1 <= q <= 100 * k / n.
Proof.
  intros Hk Hn. exists (percent_of k n). split.
  - apply progress_of_defined; [lia|].
    split; [lia|]. apply Z.lt_trans with (2 ^ 44); [lia|done].
  - by apply percent_of_bounds.
Qed.

End AccuracyFacts.

(** ** Exceptions that end a job *)

Section FaultFacts.
Import ConverterThread.

Variable w : World.
Variable os_path : OsPath.flavour.

(** A call of the frame loop that raises is the last one the loop
    makes, and the loop ends with its exception. *)
Lemma frame_loop_faults out n pending : forall k s,
  wp (frame_loop w out n pending k) s
     (fun r s' =>
        exists cs, calls s' = calls s ++ cs /\
                   forall c e, In c cs -> fault w c = Some e ->
                               r = Raise e /\ last cs = Some c).
Proof.
  induction pending as [|f pending IH]; intros k s; simpl frame_loop.
  - apply wp_invoke; [intros e He | intros He]; simpl;
      exists [cap_read k]; (split; [done|]);
      intros c e' [<-|[]] Hc; by simplify_eq.
  - wp_step. apply wp_invoke.
    { intros e He. simpl. exists [cap_read k]. split; [done|].
      intros c e' [<-|[]] Hc. by simplify_eq. }
    intros H1. wp_step. apply wp_invoke.
    { intros e He. simpl. exists [cap_read k; cv2_cvtColor k f].
      rewrite <- app_assoc. split; [done|].
      intros c e' [<-|[<-|[]]] Hc; by simplify_eq. }
    intros H2. wp_step. apply wp_write.
    { intros e He. simpl.
      exists [cap_read k; cv2_cvtColor k f; out_write k (cvtColor_BGR2RGB f)].
      rewrite <- !app_assoc. split; [done|].
      intros c e' [<-|[<-|[<-|[]]]] Hc; by simplify_eq. }
    intros H3. wp_step. wp_step.
    destruct (progress_of (k + 1) n) as [q|e] eqn:Hq.
    2:{ simpl.
      exists [cap_read k; cv2_cvtColor k f; out_write k (cvtColor_BGR2RGB f)].
      rewrite <- !app_assoc. split; [done|].
      intros c e' [<-|[<-|[<-|[]]]] Hc; by simplify_eq. }
    wp_step. wp_step. eapply wp_mono; [apply IH|]. simpl.
    intros r s' (cs & Hc & Hfaults).
    exists ([cap_read k; cv2_cvtColor k f; out_write k (cvtColor_BGR2RGB f)]
            ++ cs).
    rewrite Hc, <- !app_assoc. split; [done|].
    intros c e' [<-|[<-|[<-|Hin]]] Hf; try by simplify_eq.
    destruct (Hfaults c e' Hin Hf) as [-> Hlast]. split; [done|].
    simpl. destruct cs as [|c0 cs]; [done|]. by destruct cs.
Qed.

Lemma wp_frame_loop_faults out n pending k s Q :
  (forall r s',
     (exists cs, calls s' = calls s ++ cs /\
                 forall c e, In c cs -> fault w c = Some e ->
                             r = Raise e /\ last cs = Some c) ->
     Q r s') ->
  wp (frame_loop w out n pending k) s Q.
Proof. intros HQ. unfold wp. apply HQ. apply frame_loop_faults. Qed.

End FaultFacts.

Ltac wp_call_faults :=
  lazymatch goal with
  | |- wp (ConverterThread.frame_loop _ _ _ _ _) _ _ =>
      apply wp_frame_loop_faults; intros ? ? (? & ? & ?);
      cbn beta iota delta [disk signals calls] in *
  | |- _ => wp_call
  end.

Section FaultFacts2.
Import ConverterThread.

Variable w : World.
Variable os_path : OsPath.flavour.

Lemma run_body_faults i o d :
  wp (run_body w os_path i o) (fresh d)
     (fun r s' =>
        forall c e, In c (calls s') -> fault w c = Some e ->
                    ~ opens_input c ->
                    r = Raise e /\ last (calls s') = Some c).
Proof.
  unfold run_body, fresh. repeat wp_call_faults.
  all: intros c0 e0 Hin Hf Hno.
  all: repeat match goal with
       | Hc : calls ?s' = _ |- _ => rewrite Hc in *; clear Hc
       end.
  all: rewrite ?in_app_iff in Hin; simpl in Hin.
  all: destruct_or?; subst; simpl in Hno; try done; try congruence.
  all: try match goal with
       | Hi : In _ ?x, H : context [last ?x] |- _ =>
           destruct (H _ _ Hi Hf) as [Hr Hl];
           first [ discriminate Hr
                 | split; [done|]; by rewrite last_app, Hl ]
       end.
  all: split; [congruence | apply last_snoc].
Qed.

(** X9.  The audio extraction is the only call whose exception the
    worker drops.  Any library call of the job that raises - the opening
    of the capture, which reports a failure through [isOpened], and of
    the audio clip aside - is the last call the job makes; the job fails
    with that exception, and its text is the message of the failure
    signal, which is the last signal. *)
Theorem no_other_exception_is_dropped i o d c e :
  In c (calls (final w os_path i o d)) ->
  fault w c = Some e ->
  ~ opens_input c ->
  raised w os_path i o d = Some e /\
  last (calls (final w os_path i o d)) = Some c /\
  last (signals (final w os_path i o d))
    = Some (conversion_finished false (exn_str e)).
Proof.
  pose proof (run_body_faults i o d) as Hb. unfold wp in Hb.
  unfold raised. rewrite (final_unfold w os_path).
  destruct (run_body w os_path i o (fresh d)) as [[[]|e'] s1]; simpl in *;
    intros Hin Hf Hno; destruct (Hb c e Hin Hf Hno) as [Hr Hl]; [done|].
  injection Hr as ->. split; [done|]. split; [done|]. apply last_snoc.
Qed.

End FaultFacts2.

(** ** Converting again *)

Section AgainFacts.
Import ConverterThread.

Variable w : World.
Variable os_path : OsPath.flavour.

Lemma lookup_after_frame_pass_ne temp frames d p :
  p <> temp -> after_frame_pass w temp frames d !! p = d !! p.
Proof.
  intros Hne. unfold after_frame_pass.
  rewrite lookup_appended_ne by done. by apply lookup_opened_on_ne.
Qed.

Lemma progress_values_unique n qs1 qs2 :
  progress_values n qs1 -> progress_values n qs2 ->
  length qs1 = length qs2 -> qs1 = qs2.
Proof.
  intros H1 H2 Hlen. apply list_eq. intros j.
  destruct (qs1 !! j) as [q1|] eqn:Hq1, (qs2 !! j) as [q2|] eqn:Hq2.
  - apply H1 in Hq1. apply H2 in Hq2. congruence.
  - apply lookup_lt_Some in Hq1. apply lookup_ge_None in Hq2. lia.
  - apply lookup_lt_Some in Hq2. apply lookup_ge_None in Hq1. lia.
  - done.
Qed.

(** X10.  Converting the same input to the same output a second time,
    after a job in which everything worked and whose input is neither
    its output nor its temporary file, changes nothing: the second job
    works as well, emits the same signals and leaves every file as the
    first job left it. *)
Theorem converting_again_changes_nothing i o d cap :
  healthy w os_path i o d cap ->
  i <> o -> i <> temp_output os_path o ->
  let d1 := disk (final w os_path i o d) in
  healthy w os_path i o d1 cap /\
  raised w os_path i o d1 = None /\
  signals (final w os_path i o d1) = signals (final w os_path i o d) /\
  disk (final w os_path i o d1) = d1.
Proof.
  intros Hh Hio Hit d1.
  destruct (healthy_final w os_path i o d cap Hh)
    as (_ & (qs & Hqs & Hlen & Hs) & _ & Hd).
  assert (Hi : d1 !! i = d !! i).
  { subst d1. rewrite Hd.
    rewrite lookup_delete_ne, lookup_insert_ne by done.
    by apply lookup_after_frame_pass_ne. }
  assert (Hh1 : healthy w os_path i o d1 cap).
  { destruct Hh as (Hop & Hnf & Hopen & Hprog). repeat split; try done.
    unfold opened in *. by rewrite Hi. }
  destruct (healthy_final w os_path i o d1 cap Hh1)
    as (Hr1 & (qs1 & Hqs1 & Hlen1 & Hs1) & _ & Hd1).
  split; [done|]. split; [done|]. split.
  - rewrite Hs, Hs1.
    by rewrite (progress_values_unique _ qs1 qs Hqs1 Hqs) by congruence.
  - rewrite Hd1. subst d1. rewrite Hd. apply map_eq. intros p.
    destruct (decide (p = temp_output os_path o)) as [->|Hpt].
    { by rewrite !lookup_delete_eq. }
    rewrite !(lookup_delete_ne _ _ p) by done.
    destruct (decide (p = o)) as [->|Hpo].
    { by rewrite !lookup_insert_eq. }
    rewrite !(lookup_insert_ne _ _ p) by done.
    rewrite !lookup_after_frame_pass_ne by done.
    rewrite lookup_delete_ne, lookup_insert_ne by done.
    by rewrite lookup_after_frame_pass_ne.
Qed.

End AgainFacts.

(** ** Converting the output again *)

Section RoundTripFacts.
Import ConverterThread.

Lemma BGR2RGB_involutive px : BGR2RGB (BGR2RGB px) = px.
Proof. by destruct px. Qed.

Lemma cvtColor_involutive f : cvtColor_BGR2RGB (cvtColor_BGR2RGB f) = f.
Proof.
  unfold cvtColor_BGR2RGB. rewrite map_map. rewrite <- (map_id f) at 2.
  apply map_ext. intros row. rewrite map_map. rewrite <- (map_id row) at 2.
  apply map_ext. apply BGR2RGB_involutive.
Qed.

(** X19.  The exchange of the first and the third channel is undone by
    a second conversion.  When a job in which everything worked has
    written its output, and that output is converted in turn by a job in
    which everything works and whose decoder delivers the frames the
    file holds, the second output holds the frames of the first input,
    channel for channel, while the first output holds them with the two
    channels exchanged. *)
Theorem converting_twice_restores_the_channels
    w w2 os_path i o o2 d cap cap2 :
  healthy w os_path i o d cap ->
  let d1 := disk (final w os_path i o d) in
  healthy w2 os_path o o2 d1 cap2 ->
  Some (cap_frames cap2) = video <$> (d1 !! o) ->
  (video <$> (d1 !! o)) = Some (map cvtColor_BGR2RGB (cap_frames cap)) /\
  (video <$> (disk (final w2 os_path o o2 d1) !! o2)) = Some (cap_frames cap).
Proof.
  intros Hh d1 Hh2 Hread.
  destruct (healthy_final w os_path i o d cap Hh) as (_ & _ & _ & Hd).
  destruct (healthy_final w2 os_path o o2 d1 cap2 Hh2) as (_ & _ & _ & Hd2).
  assert (Ho : video <$> (d1 !! o)
               = Some (map cvtColor_BGR2RGB (cap_frames cap))).
  { subst d1. rewrite Hd.
    rewrite lookup_delete_ne by apply temp_output_ne.
    by rewrite lookup_insert_eq. }
  split; [done|].
  rewrite Ho in Hread. injection Hread as Hread.
  rewrite Hd2. rewrite lookup_delete_ne by apply temp_output_ne.
  rewrite lookup_insert_eq. simpl. rewrite Hread, map_map. f_equal.
  rewrite <- (map_id (cap_frames cap)) at 2.
  apply map_ext. apply cvtColor_involutive.
Qed.

End RoundTripFacts.

(** ** When a job succeeds *)

Section SuccessIffFacts.
Import ConverterThread.

Variable w : World.
Variable os_path : OsPath.flavour.

Lemma prefix_In {A} (l1 l2 : list A) x : l1 `prefix_of` l2 -> In x l1 -> In x l2.
Proof. intros [k ->] Hin. apply in_app_iff. by left. Qed.

(** The [try] block ends without an exception when the input opens,
    line 74 raises for no frame, the temporary file is there to be read
    back and none of the calls on the way raises. *)
Lemma run_body_succeeds i o d cap m :
  opened w d i = Some cap ->
  after_frame_pass w (temp_output os_path o) (cap_frames cap) d
    !! temp_output os_path o = Some m ->
  progress_computable cap ->
  (forall c, In c (pipeline os_path i o cap (audio_or_none w i) m) ->
             ~ opens_input c -> fault w c = None) ->
  wp (run_body w os_path i o) (fresh d) (fun r _ => r = Ok tt).
Proof.
  intros Hop Hm Hprog Hnf. unfold after_frame_pass in Hm.
  unfold run_body, fresh. wp_call_exact. wp_call_exact. rewrite Hop.
  assert (Hstep : forall c e,
            fault w c = Some e ->
            In c (pipeline os_path i o cap (audio_or_none w i) m) ->
            ~ opens_input c -> False).
  { intros c e Hf Hin Hno. rewrite (Hnf c Hin Hno) in Hf. done. }
  unfold pipeline in Hstep.
  repeat wp_call_exact.
  all: repeat match goal with
       | H : Ok ?a = Ok () -> _ |- _ => destruct a; specialize (H eq_refl)
       end.
  all: try match goal with
       | Hd : disk ?s' = appended _ (map _ (take ?nd ?fs)) _ |- _ =>
           rewrite (take_ge fs nd) in Hd by lia
       end.
  all: repeat match goal with
       | Hd : disk ?s' = _ |- _ => rewrite Hd in *; clear Hd
       end.
  all: try done.
  all: repeat match goal with
       | Hs : context [<[_ := _]> _ !! _] |- _ =>
           rewrite lookup_insert_ne in Hs
             by (apply not_eq_sym, temp_output_ne)
       end.
  all: try congruence.
  all: repeat match goal with
       | H1 : ?l = Some ?x, H2 : ?l = Some ?y |- _ =>
           assert (x = y) by congruence; subst; clear H2
       end.
  all: try match goal with
       | Hc1 : calls ?s = ?pre ++ ?cs, Hc2 : calls ?s = ?pre ++ ?x |- _ =>
           assert (cs = x) by (apply (app_inv_head pre); congruence); subst
       end.
  all: try (exfalso;
    match goal with
    | Hf : fault w ?c = Some ?e |- _ =>
        apply (Hstep c e Hf); [|simpl; tauto]
    end;
    try match goal with
       | Heq : audio_or_none _ _ = _ |- _ => rewrite Heq
       end;
    destruct (audio_or_none w i); simpl; rewrite ?in_app_iff; simpl;
    tauto).
  match goal with
  | Herr : context [progress_of _ _ = Raise _] |- Raise ?e = _ =>
      destruct (Herr e eq_refl) as [(c & Hc & Hf)|(Hnw & _ & Hp)]
  end.
  - exfalso. apply (Hstep c e Hf).
    + simpl. do 3 right. apply in_app_iff. left. by eapply prefix_In.
    + match goal with
      | Hall : Forall loop_call _ |- _ =>
          apply list_elem_of_In in Hc;
          apply (proj1 (Forall_forall _ _) Hall) in Hc
      end.
      destruct c; simpl in *; tauto.
  - destruct (Hprog (0 + Z.of_nat nw)) as [q Hq]; [lia|congruence].
Qed.

(** X20.  A job succeeds exactly when its input opens, line 74 raises
    for none of its frames, a file is at the temporary path once the
    frames are written, and none of the library calls of the pipeline -
    the opening of the capture and of the audio clip aside - raises. *)
Theorem a_job_succeeds_exactly_when i o d :
  raised w os_path i o d = None <->
  exists cap video_clip,
    opened w d i = Some cap /\
    after_frame_pass w (temp_output os_path o) (cap_frames cap) d
      !! temp_output os_path o = Some video_clip /\
    progress_computable cap /\
    forall c,
      In c (pipeline os_path i o cap (audio_or_none w i) video_clip) ->
      ~ opens_input c -> fault w c = None.
Proof.
  split.
  - intros Hr.
    destruct (opened w d i) as [cap|] eqn:Hop.
    2:{ exfalso. unfold raised in Hr.
        assert (Hwp : wp (run_body w os_path i o) (fresh d)
                         (fun r _ => exists e, r = Raise e)).
        { unfold run_body, fresh. wp_call. wp_call. rewrite Hop. wp_call.
          eauto. }
        unfold wp in Hwp. destruct Hwp as [e He]. by rewrite He in Hr. }
    destruct (success_signals w os_path i o d cap Hop Hr)
      as (qs & Hqs & Hlen & _).
    pose proof (run_body_calls w os_path i o (fresh d) cap Hop) as Hc.
    pose proof (run_body_faults w os_path i o d) as Hf.
    unfold wp in Hc, Hf. unfold raised in Hr.
    destruct (run_body w os_path i o (fresh d)) as [[[]|e] s1]; [|done].
    simpl in *. destruct Hc as (m & cs & Hcs & _ & Hok).
    destruct (Hok eq_refl) as [-> Hm].
    exists cap, m. split; [done|]. split; [done|]. split.
    + intros k Hk.
      destruct (lookup_lt_is_Some_2 qs (Z.to_nat (k - 1)) ltac:(lia))
        as [q Hq].
      exists q. apply Hqs in Hq. rewrite <- Hq. f_equal. lia.
    + intros c Hin Hno.
      assert (Hin' : In c (calls s1)) by (rewrite Hcs; exact Hin).
      destruct (fault w c) as [e|] eqn:Hfc; [|done].
      by destruct (Hf c e Hin' Hfc Hno).
  - intros (cap & m & Hop & Hm & Hprog & Hnf).
    pose proof (run_body_succeeds i o d cap m Hop Hm Hprog Hnf) as Hwp.
    unfold wp in Hwp. unfold raised. by rewrite Hwp.
Qed.

End SuccessIffFacts.

(** ** Why a job fails *)

Section FailureFacts.
Import ConverterThread.

Variable w : World.
Variable os_path : OsPath.flavour.

Lemma wp_frame_loop_raised out n pending k s Q :
  (forall r s',
     loop_post w out n pending k s r s' ->
     (exists cs, calls s' = calls s ++ cs /\
                 forall c e, In c cs -> fault w c = Some e ->
                             r = Raise e /\ last cs = Some c) ->
     Q r s') ->
  wp (frame_loop w out n pending k) s Q.
Proof.
  intros HQ. unfold wp. apply HQ.
  - apply (wp_frame_loop w out n pending k s). auto.
  - apply frame_loop_faults.
Qed.

End FailureFacts.

Ltac wp_call_raised :=
  lazymatch goal with
  | |- wp (ConverterThread.frame_loop _ _ _ _ _) _ _ =>
      apply wp_frame_loop_raised; intros ? ? [] (? & ? & ?); intros;
      cbn beta iota delta [disk signals calls] in *
  | |- _ => wp_call
  end.

Section FailureFacts2.
Import ConverterThread.

Variable w : World.
Variable os_path : OsPath.flavour.

Lemma run_body_raises i o d :
  wp (run_body w os_path i o) (fresh d)
     (fun r s' =>
        forall e, r = Raise e ->
          (opened w d i = None /\ e = Exn "ValueError" codec_error) \/
          (exists c, last (calls s') = Some c /\ fault w c = Some e) \/
          (exists cap k,
             opened w d i = Some cap /\
             1 <= k <= Z.of_nat (length (cap_frames cap)) /\
             progress_of k (CAP_PROP_FRAME_COUNT cap) = Raise e) \/
          (e = clip_not_found (temp_output os_path o) /\
           writer_opens w (temp_output os_path o) = false /\
           d !! temp_output os_path o = None)).
Proof.
  unfold run_body, fresh. repeat wp_call_raised.
  all: intros e' He'; try discriminate; injection He' as <-.
  all: try (left; by split).
  all: try (right; left; eexists; split; [apply last_snoc|done]).
  - (* no file at the temporary path *)
    right. right. right. split; [done|].
    match goal with
    | Hd : disk ?s' = _, Hn : disk ?s' !! _ = None |- _ =>
        rewrite Hd in Hn; unfold appended, opened_on in Hn; simpl in Hn
    end.
    destruct (writer_opens w (temp_output os_path o)).
    + match goal with
      | Hn : _ !! _ = None |- _ =>
          by rewrite lookup_alter, decide_True, lookup_insert_eq in Hn
      end.
    + done.
  - (* the temporary file cannot be gone at line 102 *)
    exfalso.
    match goal with
    | Hn : <[_ := _]> _ !! _ = None |- _ =>
        rewrite lookup_insert_ne in Hn by (apply not_eq_sym, temp_output_ne)
    end.
    congruence.
  - exfalso.
    match goal with
    | Hn : <[_ := _]> _ !! _ = None |- _ =>
        rewrite lookup_insert_ne in Hn by (apply not_eq_sym, temp_output_ne)
    end.
    congruence.
  - (* the frame loop *)
    match goal with
    | Hc1 : calls ?s = ?pre ++ ?cs, Hc2 : calls ?s = ?pre ++ ?x |- _ =>
        assert (cs = x) by (apply (app_inv_head pre); congruence); subst
    end.
    match goal with
    | Herr : context [progress_of _ _ = Raise _] |- _ =>
        destruct (Herr _ eq_refl) as [(c0 & Hc & Hf)|(Hnw & _ & Hp)]
    end.
    + right. left. exists c0.
      match goal with
      | Hl : forall c e, In c _ -> _ -> _ /\ _ |- _ =>
          destruct (Hl c0 _ Hc Hf) as [_ Hlast]
      end.
      split; [|done].
      match goal with Hc2 : calls _ = _ |- _ => rewrite Hc2 end.
      by rewrite last_app, Hlast.
    + right. right. left. eexists _, (0 + Z.of_nat nw).
      split; [done|]. split; [lia|done].
Qed.

(** X21.  A job fails for one of four reasons and no other: the input
    did not open, which gives the [ValueError] of line 44; the last
    library call it made raised, which gives that exception; line 74
    raised for one of the frames; or no file was at the temporary path
    when line 81 went to read it, which happens only when the writer did
    not open.  In particular [os.remove] never fails for want of the
    temporary file. *)
Theorem why_a_job_fails i o d e :
  raised w os_path i o d = Some e ->
  (opened w d i = None /\ e = Exn "ValueError" codec_error) \/
  (exists c, last (calls (final w os_path i o d)) = Some c /\
             fault w c = Some e) \/
  (exists cap k,
     opened w d i = Some cap /\
     1 <= k <= Z.of_nat (length (cap_frames cap)) /\
     progress_of k (CAP_PROP_FRAME_COUNT cap) = Raise e) \/
  (e = clip_not_found (temp_output os_path o) /\
   writer_opens w (temp_output os_path o) = false /\
   d !! temp_output os_path o = None).
Proof.
  pose proof (run_body_raises i o d) as Hb. unfold wp in Hb.
  unfold raised. rewrite (final_unfold w os_path).
  destruct (run_body w os_path i o (fresh d)) as [[[]|e'] s1]; simpl in *;
    [done|].
  intros [= ->]. by apply Hb.
Qed.

End FailureFacts2.

(** ** More on [os.path.splitext] *)

Module PathFacts.
Import PyStr OsPath StrFacts.













End PathFacts.

(** ** The input file of a job started by the shell *)

Section InputFacts.
Import MediaConverterApp ConverterThread.




End InputFacts.

(** ** The window *)

Section WindowFacts.
Import MainWindow.

Variable os_path : OsPath.flavour.
Variable basename : string -> string.

(** The handlers of the window do to the shell what the handlers of the
    shell do. *)
Lemma shell_of_dropEvent files win :
  shell_of (dropEvent basename files win)
  = MediaConverterApp.dropEvent files (shell_of win).
Proof.
  unfold dropEvent, MediaConverterApp.dropEvent.
  by destruct (MediaConverterApp.accepts files).
Qed.

Lemma shell_of_start_conversion d win :
  match start_conversion os_path d win with
  | Ok win' =>
      MediaConverterApp.start_conversion os_path d (shell_of win)
      = Ok (shell_of win')
  | Raise e =>
      MediaConverterApp.start_conversion os_path d (shell_of win) = Raise e
  end.
Proof.
  unfold start_conversion, MediaConverterApp.start_conversion. simpl.
  destruct (_ || _).
  - simpl. unfold shell_of. simpl. by rewrite map_app.
  - by destruct (MediaConverterApp.output_format (format_combo win)).
Qed.

Lemma accepts_nonempty files :
  MediaConverterApp.accepts files = true -> hd EmptyString files <> "".
Proof. destruct files as [|f rest]; [done|]. simpl. by intros Ha ->. Qed.

Lemma invariant_init : window_invariant os_path init.
Proof.
  repeat split; simpl; auto; try done.
  intros [|]; done.
Qed.

Lemma invariant_step win ev win' :
  window_invariant os_path win -> possible win ev ->
  handle os_path basename ev win = Ok win' -> window_invariant os_path win'.
Proof.
  intros Hinv Hev Hh.
  pose proof Hinv as (Hfmt & Hsel & Hjobs & Hvis & Hthr).
  destruct ev as [files|file|label|d|[value|success message]];
    simpl in Hh, Hev.
  - injection Hh as <-. unfold dropEvent.
    destruct (MediaConverterApp.accepts files) eqn:Ha;
      repeat split; simpl; auto.
    intros _. by apply accepts_nonempty.
  - injection Hh as <-. unfold select_file.
    destruct (String.eqb_spec file ""); simpl; [done|].
    repeat split; simpl; auto.
  - injection Hh as <-. repeat split; simpl; auto.
  - destruct (convert_btn_enabled win) eqn:Hbtn.
    2:{ by injection Hh as <-. }
    unfold start_conversion in Hh.
    destruct (String.eqb_spec (input_file win) "") as [Hno|Hin]; simpl in Hh.
    { injection Hh as <-. repeat split; simpl; auto. }
    destruct (bool_decide _); simpl in Hh.
    2:{ injection Hh as <-. repeat split; simpl; auto. }
    destruct (output_format_of_item _ Hfmt)
      as (word & rest & ext & _ & _ & Hof & Hext).
    rewrite Hof in Hh. injection Hh as <-.
    repeat split; simpl; auto.
    + apply Forall_app. split; [done|]. constructor; [|done].
      split; [done|]. by exists ext.
    + intros _ Hnil. by apply app_eq_nil in Hnil as [_ ?].
    + by rewrite last_snoc.
  - injection Hh as <-. unfold update_progress.
    destruct (value <? 30); [|destruct (value <? 70)];
      repeat split; simpl; auto.
  - injection Hh as <-. unfold conversion_complete.
    destruct success; repeat split; simpl; auto; done.
Qed.

Lemma reachable_invariant win :
  reachable os_path basename win -> window_invariant os_path win.
Proof.
  induction 1 as [|win ev win' _ IH Hev Hh].
  - apply invariant_init.
  - by apply (invariant_step win ev).
Qed.

Lemma handle_returns win ev :
  window_invariant os_path win ->
  exists win', handle os_path basename ev win = Ok win'.
Proof.
  intros (Hfmt & _). destruct ev as [files|file|label|d|sg]; simpl; eauto.
  destruct (convert_btn_enabled win); eauto.
  unfold start_conversion. destruct (_ || _); eauto.
  destruct (output_format_of_item _ Hfmt)
    as (word & rest & ext & _ & _ & -> & _).
  eauto.
Qed.

(** X12.  In every state the window can reach - by drops, file dialogs,
    choices in the format box, presses of the conversion button and
    signals of its workers, in any order - the format box shows one of
    its four entries; the conversion button is enabled only when a file
    is selected; every worker was started on a selected input with an
    output path derived from it for one of [mp4], [mov], [avi], [mkv];
    the progress bar is visible only after a worker was started; and
    [self.converter_thread] is the worker started last.  No handler
    raises there: the [split()[0]] of line 413 always finds a word. *)
Theorem window_invariants win :
  reachable os_path basename win ->
  In (format_combo win) MediaConverterApp.format_items /\
  (convert_btn_enabled win = true -> input_file win <> "") /\
  Forall (well_formed_job os_path) (threads_started win) /\
  (progress_visible win = true -> threads_started win <> []) /\
  converter_thread win = last (threads_started win) /\
  forall ev, exists win', handle os_path basename ev win = Ok win'.
Proof.
  intros Hr. pose proof (reachable_invariant win Hr) as Hinv.
  destruct Hinv as (Hfmt & Hsel & Hjobs & Hvis & Hthr).
  split; [done|]. split; [auto|]. split; [done|]. split; [done|].
  split; [done|]. intros ev. apply handle_returns.
  by apply reachable_invariant.
Qed.

(** X13.  A press of the conversion button, in any state the window can
    reach, starts a worker exactly when the button is enabled and the
    selected file exists: the worker gets the selected path and the
    derived output path, the button is disabled and the bar is shown.
    An enabled button whose file is gone shows the error box and starts
    nothing; a disabled button does nothing at all. *)
Theorem click_starts_a_worker_exactly_when_the_file_exists win d :
  reachable os_path basename win ->
  exists win',
    handle os_path basename (Clicked d) win = Ok win' /\
    if convert_btn_enabled win
    then
      if bool_decide (is_Some (d !! input_file win))
      then
        exists fmt,
          In fmt ["mp4"; "mov"; "avi"; "mkv"] /\
          MediaConverterApp.output_format (format_combo win) = Ok fmt /\
          threads_started win' =
            threads_started win
            ++ [(input_file win,
                 MediaConverterApp.output_file os_path (input_file win) fmt)] /\
          convert_btn_enabled win' = false /\
          progress_visible win' = true /\
          progress_label win' = "CONVERTING... 0%" /\
          message_boxes win' = message_boxes win
      else
        win' = QMessageBox Critical "Error" "Input file does not exist!" win
    else win' = win.
Proof.
  intros Hr. destruct (reachable_invariant win Hr) as (Hfmt & Hsel & _).
  simpl. destruct (convert_btn_enabled win) eqn:Hbtn; [|by exists win].
  unfold start_conversion.
  destruct (String.eqb_spec (input_file win) "") as [Hno|Hin].
  { destruct Hsel; auto. }
  simpl. destruct (bool_decide _); simpl; [|eauto].
  destruct (output_format_of_item _ Hfmt)
    as (word & rest & ext & _ & _ & Hof & Hext).
  rewrite Hof. eexists. split; [done|]. exists ext. by repeat split.
Qed.

Lemma deliver_app sgs1 sgs2 win :
  deliver sgs2 (deliver sgs1 win) = deliver (sgs1 ++ sgs2) win.
Proof. unfold deliver. by rewrite fold_left_app. Qed.


End WindowFacts.

Section SessionFacts.
Import MainWindow ConverterThread.

Variable w : World.
Variable os_path : OsPath.flavour.



End SessionFacts.

(** ** The script *)

Section ScriptFacts.
Import Script.

Lemma import_loaded py module sys_modules :
  In module sys_modules -> import py module sys_modules = (Ok tt, sys_modules).
Proof.
  intros Hin. unfold import.
  assert (existsb (String.eqb module) sys_modules = true) as ->; [|done].
  apply existsb_exists. exists module. split; [done|]. apply String.eqb_refl.
Qed.

Lemma import_cases py module sys_modules :
  match import py module sys_modules with
  | (Ok _, sys_modules') =>
      In module sys_modules' /\
      forall m, In m sys_modules -> In m sys_modules'
  | (Raise _, _) => True
  end.
Proof.
  unfold import.
  destruct (existsb (String.eqb module) sys_modules) eqn:Hex.
  - split; [|done]. apply existsb_exists in Hex as (m & Hin & Heq).
    by apply String.eqb_eq in Heq as ->.
  - destruct (load_module py sys_modules module); [done|]. simpl. auto.
Qed.

Lemma import_names_in py module names name :
  import_names py module names = Ok tt -> In name names ->
  find_name py module name = None.
Proof.
  induction names as [|n names IH]; simpl; [done|].
  destruct (find_name py module n) eqn:Hn; [done|].
  intros Hok [<-|Hin]; auto.
Qed.

(** What the statements of a list that ran to its end have loaded and
    found. *)
Lemma exec_all_loaded py sts : forall sys_modules sys_modules',
  exec_all py sts sys_modules = (Ok tt, sys_modules') ->
  (forall m, In m sys_modules -> In m sys_modules') /\
  (forall m, In (ImportModule m) sts -> In m sys_modules') /\
  (forall m names name,
     In (ImportFrom m names) sts -> In name names ->
     In m sys_modules' /\ find_name py m name = None).
Proof.
  induction sts as [|st sts IH]; intros mods mods' Hex; simpl in Hex.
  - injection Hex as <-. by repeat split.
  - destruct (exec py st mods) as [[[]|e] mods1] eqn:Hst; [|done].
    destruct (IH _ _ Hex) as (Hmono & Himp & Hfrom).
    assert (Hst' : (forall m, In m mods -> In m mods1) /\
                   match st with
                   | ImportModule m => In m mods1
                   | ImportFrom m names =>
                       In m mods1 /\
                       forall name, In name names -> find_name py m name = None
                   end).
    { destruct st as [m|m names]; simpl in Hst.
      - pose proof (import_cases py m mods) as Hc. rewrite Hst in Hc.
        by destruct Hc.
      - pose proof (import_cases py m mods) as Hc.
        destruct (import py m mods) as [[[]|e] mods2]; [|done].
        injection Hst as Hn ->. destruct Hc as [Hin Hm].
        split; [done|]. split; [done|].
        intros name. by apply import_names_in. }
    destruct Hst' as [Hm1 Hst'].
    split; [auto|]. split.
    + intros m [->|Hin]; auto.
    + intros m names name [->|Hin] Hname; [|eauto].
      destruct Hst' as [Hin Hlook]. auto.
Qed.

(** X15.  The [Missing Dependencies] box of lines 467-500 is never
    shown.  The three imports it guards repeat imports of lines 3-9: when
    one of those fails the script has already ended there with a
    traceback, and when they succeeded the modules are in [sys.modules]
    and the guarded imports load nothing.  So a run of the script ends
    with the traceback of a failed import of lines 1-14 or goes on to
    lines 502-514, which show the window. *)
Theorem missing_dependencies_box_is_never_shown py sys_modules :
  main py sys_modules =
    match exec_all py top_imports sys_modules with
    | (Raise e, _) => Traceback e
    | (Ok _, _) => WindowRuns
    end.
Proof.
  unfold main.
  destruct (exec_all py top_imports sys_modules) as [[[]|e] mods] eqn:Htop;
    [|done].
  destruct (exec_all_loaded py _ _ _ Htop) as (_ & Himp & Hfrom).
  assert (Hcv2 : In "cv2" mods) by (apply Himp; simpl; auto).
  assert (Hmpy : In "moviepy.editor" mods) by (apply Himp; simpl; auto).
  destruct (Hfrom "PyQt5.QtWidgets" _ "QApplication"
              ltac:(simpl; eauto 6) ltac:(simpl; auto)) as [Hqt Hname].
  unfold checked_imports. cbn [exec_all exec].
  rewrite !import_loaded by done. cbn [import_names]. by rewrite Hname.
Qed.

End ScriptFacts.

(** ** Browsing, dropping and the colours of the label *)

Section BrowseFacts.
Import MainWindow.

Variable os_path : OsPath.flavour.
Variable basename : string -> string.

(** X16.  The extension of a file is looked at when the file is
    dropped, not when it is chosen in the file dialog.  For a file with
    a supported extension the dialog and the drop lead to the same
    window; but the dialog selects any path it returns, and a press of
    the button then starts a worker on it when the file exists, whatever
    its extension.  A cancelled dialog, which returns the empty path,
    changes nothing. *)
Theorem only_a_drop_looks_at_the_extension file win :
  (MediaConverterApp.accepts [file] = true ->
   select_file basename file win = dropEvent basename [file] win) /\
  (file <> "" ->
   input_file (select_file basename file win) = file /\
   convert_btn_enabled (select_file basename file win) = true /\
   progress_label (select_file basename file win) = "READY TO CONVERT" /\
   forall d,
     reachable os_path basename win -> is_Some (d !! file) ->
     exists win' fmt,
       In fmt ["mp4"; "mov"; "avi"; "mkv"] /\
       handle_all os_path basename [Browsed file; Clicked d] win = Ok win' /\
       threads_started win' =
         threads_started win
         ++ [(file, MediaConverterApp.output_file os_path file fmt)]) /\
  select_file basename "" win = win.
Proof.
  split; [|split; [|done]].
  - intros Ha. unfold select_file, dropEvent. rewrite Ha.
    destruct (String.eqb_spec file "") as [->|]; [done|]. done.
  - intros Hne. unfold select_file.
    destruct (String.eqb_spec file "") as [|_]; [done|].
    split; [done|]. split; [done|]. split; [done|].
    intros d Hr Hd.
    destruct (reachable_invariant os_path basename win Hr) as (Hfmt & _).
    destruct (output_format_of_item _ Hfmt)
      as (word & rest & fmt & _ & _ & Hof & Hext).
    eexists _, fmt. split; [done|].
    cbn [handle_all handle]. unfold select_file.
    destruct (String.eqb_spec file "") as [|_]; [done|].
    cbn -[String.eqb]. unfold start_conversion.
    cbn -[String.eqb MediaConverterApp.output_file].
    destruct (String.eqb_spec file "") as [|_]; [done|].
    rewrite bool_decide_eq_true_2 by done. cbn [orb negb]. rewrite Hof.
    cbn -[MediaConverterApp.output_file]. by split.
Qed.

End BrowseFacts.

Section ColourFacts.
Import MainWindow ConverterThread.

Variable w : World.
Variable os_path : OsPath.flavour.

(** The window after the slot of [progress_updated] ran, last for [p]. *)
Lemma deliver_progress_last ps p win :
  let win' := deliver (map progress_updated (ps ++ [p])) win in
  progress_label win' = "CONVERTING... " +:+ PyFormat.str_of_int p +:+ "%" /\
  progress_label_style win' = style_of p.
Proof.
  simpl. rewrite map_app, <- deliver_app. simpl.
  set (win1 := deliver (map progress_updated ps) win).
  unfold update_progress, style_of.
  destruct (p <? 30); [|destruct (p <? 70)]; done.
Qed.

(** The progress values of a job that succeeds on a frame count that is
    not negative, the final 100 included, are in non-decreasing order. *)
Lemma success_progress_sorted i o d cap :
  opened w d i = Some cap ->
  0 <= CAP_PROP_FRAME_COUNT cap ->
  raised w os_path i o d = None ->
  exists ps,
    signals (final w os_path i o d) =
      map progress_updated ps ++ [conversion_finished true o] /\
    forall (j1 j2 : nat) p1 p2,
      (j1 <= j2)%nat -> ps !! j1 = Some p1 -> ps !! j2 = Some p2 ->
      p1 <= p2.
Proof.
  intros Hop Hn Hr.
  destruct (success_signals w os_path i o d cap Hop Hr)
    as (qs & Hqs & Hlen & Hs).
  assert (Hpos : forall (j : nat) q, qs !! j = Some q ->
                   0 < CAP_PROP_FRAME_COUNT cap).
  { intros j q Hj. apply Hqs in Hj.
    destruct (Z.eq_dec (CAP_PROP_FRAME_COUNT cap) 0) as [Hz|]; [|lia].
    by rewrite Hz, progress_of_zero in Hj. }
  exists (map (fun q => Z.min q 95) qs ++ [100]). split.
  - rewrite Hs. unfold percent. by rewrite map_app, map_map, <- app_assoc.
  - intros j1 j2 p1 p2 Hle H1 H2.
    assert (Hcap : forall (j : nat) p,
              (map (fun q => Z.min q 95) qs ++ [100]) !! j = Some p ->
              (exists q, qs !! j = Some q /\ p = Z.min q 95) \/
              (length qs <= j)%nat /\ p = 100).
    { intros j p Hj. apply lookup_app_Some in Hj as [Hj|[Hge Hj]].
      - left. rewrite list_lookup_fmap in Hj.
        destruct (qs !! j) as [q|]; [|done]. simpl in Hj.
        injection Hj as <-. eauto.
      - right. rewrite length_map in Hge. split; [done|].
        apply list_lookup_singleton_Some in Hj as [_ <-]. done. }
    destruct (Hcap j1 p1 H1) as [(q1 & Hq1 & ->)|[Hge1 ->]],
             (Hcap j2 p2 H2) as [(q2 & Hq2 & ->)|[Hge2 ->]].
    + destruct (FloatFacts.progress_of_mono (CAP_PROP_FRAME_COUNT cap)
                  (Z.of_nat j1 + 1) (Z.of_nat j2 + 1) q1 q2 (Hpos j1 q1 Hq1)
                  ltac:(lia) ltac:(lia) (Hqs j1 q1 Hq1) (Hqs j2 q2 Hq2)).
      lia.
    + lia.
    + apply lookup_lt_Some in Hq2. lia.
    + lia.
Qed.

(** X17.  While a job that succeeds on a frame count that is not
    negative reports its progress, the label reads
    [CONVERTING... p%] for the value [p] received last, in orange below
    30, in deep orange below 70 and in green from 70 on, and its colour
    never goes back: once green it stays green, and it is orange only as
    long as it was orange before. *)
Theorem label_colour_never_goes_back i o d cap win :
  opened w d i = Some cap ->
  0 <= CAP_PROP_FRAME_COUNT cap ->
  raised w os_path i o d = None ->
  exists ps,
    signals (final w os_path i o d) =
      map progress_updated ps ++ [conversion_finished true o] /\
    forall (j1 j2 : nat) p1 p2,
      (j1 <= j2)%nat -> ps !! j1 = Some p1 -> ps !! j2 = Some p2 ->
      let win1 := deliver (map progress_updated (take (S j1) ps)) win in
      let win2 := deliver (map progress_updated (take (S j2) ps)) win in
      progress_label win1
        = "CONVERTING... " +:+ PyFormat.str_of_int p1 +:+ "%" /\
      progress_label_style win1 = style_of p1 /\
      progress_label_style win2 = style_of p2 /\
      (progress_label_style win1 = green ->
       progress_label_style win2 = green) /\
      (progress_label_style win2 = orange ->
       progress_label_style win1 = orange).
Proof.
  intros Hop Hn Hr.
  destruct (success_progress_sorted i o d cap Hop Hn Hr) as (ps & Hs & Hsorted).
  exists ps. split; [done|].
  intros j1 j2 p1 p2 Hle H1 H2. simpl.
  rewrite (take_S_r ps j1 p1 H1), (take_S_r ps j2 p2 H2).
  destruct (deliver_progress_last (take j1 ps) p1 win) as [Hl1 Hst1].
  destruct (deliver_progress_last (take j2 ps) p2 win) as [_ Hst2].
  simpl in Hl1, Hst1, Hst2. rewrite Hl1, Hst1, Hst2.
  split; [done|]. split; [done|]. split; [done|].
  pose proof (Hsorted j1 j2 p1 p2 Hle H1 H2) as Hp.
  unfold style_of.
  destruct (Z.ltb_spec p1 30), (Z.ltb_spec p2 30),
           (Z.ltb_spec p1 70), (Z.ltb_spec p2 70);
    try lia; by split.
Qed.

End ColourFacts.

(** ** A drop while a job runs *)

Section SecondJobFacts.
Import MainWindow.

Variable os_path : OsPath.flavour.
Variable basename : string -> string.

(** X18.  The disabled button does not keep a second job from starting
    while the first one runs.  After a press that started a job, a drop
    of a supported file enables the button again, although no
    [conversion_finished] has arrived; the next press starts a second
    worker, on the dropped file, and [self.converter_thread] then holds
    this second worker only. *)
Theorem a_drop_during_a_job_allows_a_second_job win d f :
  reachable os_path basename win ->
  convert_btn_enabled win = true ->
  is_Some (d !! input_file win) ->
  MediaConverterApp.accepts [f] = true ->
  is_Some (d !! f) ->
  exists win' fmt,
    MediaConverterApp.output_format (format_combo win) = Ok fmt /\
    handle_all os_path basename [Clicked d; Dropped [f]; Clicked d] win
      = Ok win' /\
    threads_started win' =
      threads_started win
      ++ [(input_file win,
           MediaConverterApp.output_file os_path (input_file win) fmt);
          (f, MediaConverterApp.output_file os_path f fmt)] /\
    converter_thread win'
      = Some (f, MediaConverterApp.output_file os_path f fmt) /\
    message_boxes win' = message_boxes win.
Proof.
  intros Hr Hbtn Hin Hacc Hf.
  destruct (reachable_invariant os_path basename win Hr) as (Hfmt & Hsel & _).
  destruct (output_format_of_item _ Hfmt)
    as (word & rest & fmt & _ & _ & Hof & _).
  assert (Hne : input_file win <> "") by auto.
  assert (Hfne : f <> "") by (by apply (accepts_nonempty [f])).
  eexists _, fmt. split; [done|].
  cbn [handle_all handle]. rewrite Hbtn. unfold start_conversion at 1.
  destruct (String.eqb_spec (input_file win) ""); [done|].
  rewrite bool_decide_eq_true_2 by done. cbn [orb negb]. rewrite Hof.
  cbn [handle_all handle]. unfold dropEvent. rewrite Hacc.
  cbn -[String.eqb]. unfold start_conversion.
  cbn -[String.eqb MediaConverterApp.output_file].
  destruct (String.eqb_spec f ""); [done|].
  rewrite bool_decide_eq_true_2 by done. cbn [orb negb]. rewrite Hof.
  cbn -[MediaConverterApp.output_file].
  split; [reflexivity|]. simpl. by rewrite <- app_assoc.
Qed.

End SecondJobFacts.

(** ** Examples for the window and the script *)

Module WindowExamples.
Import MainWindow.

Example upper_name : PyFormat.upper "clip.wmv" = "CLIP.WMV".
Proof. reflexivity. Qed.

Example str_of_negative : PyFormat.str_of_int (-200) = "-200".
Proof. reflexivity. Qed.

Example basename_of_path : PosixPath.basename "/v/clip.wmv" = "clip.wmv".
Proof. reflexivity. Qed.

Example basename_of_directory : PosixPath.basename "/v/" = "".
Proof. reflexivity. Qed.

Example drop_shows_the_name :
  file_label (dropEvent PosixPath.basename ["/v/clip.wmv"] init)
  = "SELECTED: CLIP.WMV".
Proof. reflexivity. Qed.

Example progress_label_at_50 :
  progress_label (update_progress 50 init) = "CONVERTING... 50%" /\
  progress_label_style (update_progress 50 init) = deep_orange.
Proof. by split. Qed.

Example failure_box :
  message_boxes (conversion_complete false "division by zero" init)
  = [{| box_icon := Critical; box_title := "ERROR";
        box_text := "Conversion failed:" +:+ PyFormat.LF
                    +:+ "division by zero" |}].
Proof. reflexivity. Qed.

End WindowExamples.

(** ** More properties at sample inputs *)

Section MoreWitnesses.
Import MediaConverterApp ConverterThread Sample MoreSamples.

Lemma two_frames_computable frame_count :
  frame_count = 1 \/ frame_count = 2 ->
  progress_computable (capture frame_count [picture; picture]).
Proof.
  intros Hc k Hk. simpl in Hk.
  assert (Hk' : k = 1 \/ k = 2) by lia.
  destruct Hc as [-> | ->], Hk' as [-> | ->]; eexists; vm_compute;
    reflexivity.
Defined.

Lemma sound_healthy :
  healthy (sound_world 2 [picture; picture]) OsPath.posixpath
          "clip.wmv" "clip.mp4" folder (capture 2 [picture; picture]).
Proof.
  split; [reflexivity|]. split; [by intros c|]. split; [reflexivity|].
  apply two_frames_computable. by right.
Defined.

(** A silent file of two frames: the calls of the job, all of them. *)
Lemma pipeline_witness :
  let cap := capture 2 [picture; picture] in
  exists video_clip,
    calls (final (silent_world 2 [picture; picture]) OsPath.posixpath
                 "clip.wmv" "clip.mp4" folder)
    = pipeline OsPath.posixpath "clip.wmv" "clip.mp4" cap None video_clip.
Proof.
  intros cap.
  destruct (calls_follow_the_pipeline
              (silent_world 2 [picture; picture]) OsPath.posixpath
              "clip.wmv" "clip.mp4" folder cap eq_refl) as (m & _ & Hok).
  exists m. exact (proj1 (Hok eq_refl)).
Defined.

(** The same file with a sound track. *)
Lemma extracted_audio_witness :
  disk (final (sound_world 2 [picture; picture]) OsPath.posixpath
              "clip.wmv" "clip.mp4" folder) !! "clip.mp4"
  = Some {| video := [[[Px 30 20 10; Px 255 0 0]]; [[Px 30 20 10; Px 255 0 0]]];
            audio := Some track |}.
Proof.
  destruct (extracted_audio_is_muxed
              (sound_world 2 [picture; picture]) OsPath.posixpath
              "clip.wmv" "clip.mp4" folder (capture 2 [picture; picture])
              track eq_refl sound_healthy) as (_ & _ & _ & _ & Hd).
  exact Hd.
Defined.


(** Two frames and a frame count of 1: the progress is 95, 95, 100. *)
Lemma plateau_witness :
  exists ps,
    signals (final (silent_world 1 [picture; picture]) OsPath.posixpath
                   "clip.wmv" "clip.mp4" folder) =
      map progress_updated ps
      ++ [progress_updated 100; conversion_finished true "clip.mp4"] /\
    length ps = 2%nat /\
    forall (j : nat) p, ps !! j = Some p -> 1 <= Z.of_nat j + 1 -> p = 95.
Proof.
  apply (progress_stays_at_95_once_the_count_is_reached
           (silent_world 1 [picture; picture]) OsPath.posixpath
           "clip.wmv" "clip.mp4" folder (capture 1 [picture; picture]));
    [reflexivity | simpl; lia | reflexivity].
Defined.

(** Frame 29 of 100: the exact percentage is 29, line 74 gives 28. *)
Lemma accuracy_witness :
  exists q, progress_of 29 100 = Ok q /\ 100 * 29 / 100 - 1 <= q <= 100 * 29 / 100.
Proof.
  apply (progress_is_exact_or_one_less 29 100);
    split; reflexivity.
Defined.

(** A mux that raises. *)
Lemma dropped_exception_witness :
  let w := failing_mux_world 2 [picture; picture] in
  raised w OsPath.posixpath "clip.wmv" "clip.mp4" folder = Some mux_error /\
  last (signals (final w OsPath.posixpath "clip.wmv" "clip.mp4" folder))
    = Some (conversion_finished false "[Errno 32] Broken pipe").
Proof.
  intros w.
  assert (Hin : In (write_videofile "clip.mp4"
                      {| video := map cvtColor_BGR2RGB [picture; picture];
                         audio := None |} None)
                   (calls (final w OsPath.posixpath "clip.wmv" "clip.mp4"
                                 folder)))
    by (vm_compute; tauto).
  destruct (no_other_exception_is_dropped
              w OsPath.posixpath "clip.wmv" "clip.mp4" folder _ mux_error
              Hin eq_refl (fun H => H)) as (Hr & _ & Hs).
  split; [exact Hr | exact Hs].
Defined.

(** The job of the silent file, run twice. *)
Lemma converting_again_witness :
  let w := silent_world 2 [picture; picture] in
  let d1 := disk (final w OsPath.posixpath "clip.wmv" "clip.mp4" folder) in
  disk (final w OsPath.posixpath "clip.wmv" "clip.mp4" d1) = d1.
Proof.
  intros w d1.
  assert (H1 : "clip.wmv" <> "clip.mp4") by discriminate.
  assert (H2 : "clip.wmv" <> temp_output OsPath.posixpath "clip.mp4")
    by (vm_compute; discriminate).
  exact (proj2 (proj2 (proj2 (converting_again_changes_nothing
                                w OsPath.posixpath "clip.wmv" "clip.mp4"
                                folder _ sample_healthy H1 H2)))).
Defined.


(** A frame count of 0 and one frame: line 74 raises at the first
    frame. *)
Lemma failure_witness :
  let w := silent_world 0 [picture] in
  let e := Exn "ZeroDivisionError" "division by zero" in
  (opened w folder "clip.wmv" = None /\ e = Exn "ValueError" codec_error) \/
  (exists c, last (calls (final w OsPath.posixpath "clip.wmv" "clip.mp4"
                                folder)) = Some c /\
             fault w c = Some e) \/
  (exists cap k,
     opened w folder "clip.wmv" = Some cap /\
     1 <= k <= Z.of_nat (length (cap_frames cap)) /\
     progress_of k (CAP_PROP_FRAME_COUNT cap) = Raise e) \/
  (e = clip_not_found (temp_output OsPath.posixpath "clip.mp4") /\
   writer_opens w (temp_output OsPath.posixpath "clip.mp4") = false /\
   folder !! temp_output OsPath.posixpath "clip.mp4" = None).
Proof.
  intros w e.
  exact (why_a_job_fails w OsPath.posixpath "clip.wmv" "clip.mp4" folder e
                         eq_refl).
Defined.

End MoreWitnesses.

Section WindowWitnesses.
Import MainWindow Sample.

Lemma dropped_is_reachable :
  reachable OsPath.posixpath PosixPath.basename
            (dropEvent PosixPath.basename ["clip.wmv"] init).
Proof.
  apply (reachable_step _ _ init (Dropped ["clip.wmv"]));
    [apply reachable_init | exact I | reflexivity].
Defined.

(** The window after a drop of [clip.wmv]. *)
Lemma window_witness :
  let win := dropEvent PosixPath.basename ["clip.wmv"] init in
  In (format_combo win) MediaConverterApp.format_items /\
  input_file win <> "" /\
  forall ev, exists win',
    handle OsPath.posixpath PosixPath.basename ev win = Ok win'.
Proof.
  intros win.
  destruct (window_invariants OsPath.posixpath PosixPath.basename win
              dropped_is_reachable) as (Hfmt & Hsel & _ & _ & _ & Hev).
  split; [exact Hfmt|]. split; [exact (Hsel eq_refl) | exact Hev].
Defined.

(** A press of the button in that window, with the file on disk. *)
Lemma click_witness :
  let win := dropEvent PosixPath.basename ["clip.wmv"] init in
  exists win',
    handle OsPath.posixpath PosixPath.basename (Clicked folder) win = Ok win' /\
    threads_started win' = [("clip.wmv", "clip.mp4")].
Proof.
  intros win.
  destruct (click_starts_a_worker_exactly_when_the_file_exists
              OsPath.posixpath PosixPath.basename win folder
              dropped_is_reachable) as (win' & Hh & Hif).
  exists win'. split; [exact Hh|].
  simpl in Hif. destruct Hif as (fmt & _ & Hof & Hthreads & _).
  injection Hof as <-. exact Hthreads.
Defined.

(** The labels of the silent file of two frames. *)
Lemma colour_witness :
  exists ps,
    signals (ConverterThread.final (silent_world 2 [picture; picture]) OsPath.posixpath
                   "clip.wmv" "clip.mp4" folder) =
      map progress_updated ps ++ [conversion_finished true "clip.mp4"] /\
    forall (j1 j2 : nat) p1 p2,
      (j1 <= j2)%nat -> ps !! j1 = Some p1 -> ps !! j2 = Some p2 ->
      progress_label_style
        (deliver (map progress_updated (take (S j1) ps)) init) = green ->
      progress_label_style
        (deliver (map progress_updated (take (S j2) ps)) init) = green.
Proof.
  destruct (label_colour_never_goes_back
              (silent_world 2 [picture; picture]) OsPath.posixpath
              "clip.wmv" "clip.mp4" folder (capture 2 [picture; picture])
              init eq_refl ltac:(simpl; lia) eq_refl) as (ps & Hs & Hc).
  exists ps. split; [exact Hs|].
  intros j1 j2 p1 p2 Hle H1 H2.
  exact (proj1 (proj2 (proj2 (proj2 (Hc j1 j2 p1 p2 Hle H1 H2))))).
Defined.

End WindowWitnesses.

Section SecondJobWitness.
Import MainWindow Sample.

(** [clip.wmv] is being converted when [b.avi] is dropped. *)
Lemma second_job_witness :
  let win := dropEvent PosixPath.basename ["clip.wmv"] init in
  let d : gmap string media :=
    {[ "clip.wmv" := {| video := []; audio := None |};
       "b.avi" := {| video := []; audio := None |} ]} in
  exists win',
    handle_all OsPath.posixpath PosixPath.basename
               [Clicked d; Dropped ["b.avi"]; Clicked d] win = Ok win' /\
    threads_started win' = [("clip.wmv", "clip.mp4"); ("b.avi", "b.mp4")].
Proof.
  intros win d.
  assert (H1 : is_Some (d !! input_file win))
    by (exists {| video := []; audio := None |}; reflexivity).
  assert (H2 : is_Some (d !! "b.avi"))
    by (exists {| video := []; audio := None |}; reflexivity).
  destruct (a_drop_during_a_job_allows_a_second_job
              OsPath.posixpath PosixPath.basename win d "b.avi"
              dropped_is_reachable eq_refl H1 eq_refl H2)
    as (win' & fmt & Hof & Hh & Hthreads & _).
  exists win'. split; [exact Hh|].
  injection Hof as <-. exact Hthreads.
Defined.

End SecondJobWitness.

Section RoundTripWitness.
Import ConverterThread Sample MoreSamples.

Lemma swapped_healthy :
  healthy (silent_world 2 [swapped; swapped]) OsPath.posixpath
          "clip.mp4" "clip.mov"
          (disk (final (silent_world 2 [picture; picture]) OsPath.posixpath
                       "clip.wmv" "clip.mp4" folder))
          (capture 2 [swapped; swapped]).
Proof.
  split; [reflexivity|]. split; [by intros c|]. split; [reflexivity|].
  intros k Hk. simpl in Hk.
  assert (Hk' : k = 1 \/ k = 2) by lia.
  destruct Hk' as [-> | ->]; eexists; vm_compute; reflexivity.
Defined.

(** [clip.wmv] converted to MP4, and the MP4 converted to MOV. *)
Lemma round_trip_witness :
  let d1 := disk (final (silent_world 2 [picture; picture]) OsPath.posixpath
                        "clip.wmv" "clip.mp4" folder) in
  (video <$> (disk (final (silent_world 2 [swapped; swapped])
                          OsPath.posixpath "clip.mp4" "clip.mov" d1)
              !! "clip.mov"))
  = Some [picture; picture].
Proof.
  intros d1.
  exact (proj2 (converting_twice_restores_the_channels
                  (silent_world 2 [picture; picture])
                  (silent_world 2 [swapped; swapped]) OsPath.posixpath
                  "clip.wmv" "clip.mp4" "clip.mov" folder
                  (capture 2 [picture; picture]) (capture 2 [swapped; swapped])
                  sample_healthy swapped_healthy eq_refl)).
Defined.

End RoundTripWitness.
